(** * Team-Social-Partner: the database schema, the account-manager page and
    the dispatch core

    The development has two halves.

    - [Schema] and [AccountManager] embed code of the repository: the
      multi-tenant PostgreSQL schema (its tables with their column
      constraints, and the [update_updated_at_column] trigger) and the
      [deleteUser] handler of the account-manager page.
    - [Core] models the Publish Scheduler, the Automation Rule Engine, the
      Platform Adapter Registry and the Execution Ledger.  Their
      implementation is not part of the source tree, so these definitions
      follow the design document and each says so. *)

From Stdlib Require Import Ascii.
From stdpp Require Import gmap strings list pretty.

Set Default Proof Using "Type".

Local Open Scope string_scope.
Local Open Scope Z_scope.
Local Open Scope list_scope.

(** JSON documents: JSONB column payloads. *)
#[local] Set Warnings "-register-all".
Inductive json : Type :=
| JNull
| JBool (b : bool)
| JNum (n : Z)
| JStr (s : string)
| JArr (items : list json)
| JObj (fields : list (string * json)).
#[local] Set Warnings "register-all".

(* ===================================================================== *)
(** ** The PostgreSQL schema                                               *)
(* ===================================================================== *)

Module Schema.

(** Column types used by the schema. *)
Inductive sql_type : Type :=
| UUID | VARCHAR (n : nat) | TEXT | BOOLEAN | INTEGER | TIMESTAMPTZ | JSONB | INET.

(** SQL values; [VNull] is SQL NULL (distinct from the JSON value [JNull]). *)
Inductive sql_value : Type :=
| VNull
| VUuid (u : string)
| VString (s : string)
| VBool (b : bool)
| VInt (n : Z)
| VTime (t : Z)
| VJson (j : json)
| VInet (a : string).

Definition is_null (v : sql_value) : bool :=
  match v with VNull => true | _ => false end.

(** *** Text and jsonb values as the server stores them *)

(** The byte is in a range of byte values. *)
Definition byte_in (lo hi : N) (a : ascii) : bool :=
  ((lo <=? N_of_ascii a) && (N_of_ascii a <=? hi))%N.

(** The second byte of a three-byte and of a four-byte UTF-8 sequence:
    overlong forms, surrogates and code points above U+10FFFF are not
    text. *)
Definition second_of_three (a b : ascii) : bool :=
  if (N_of_ascii a =? 224)%N then byte_in 160 191 b
  else if (N_of_ascii a =? 237)%N then byte_in 128 159 b
  else byte_in 128 191 b.

Definition second_of_four (a b : ascii) : bool :=
  if (N_of_ascii a =? 240)%N then byte_in 144 191 b
  else if (N_of_ascii a =? 244)%N then byte_in 128 143 b
  else byte_in 128 191 b.

(** The characters of a text, each with its bytes.  The database encoding
    is UTF8: a string that is not well-formed UTF-8, or holds a zero byte,
    is no text value ([None]). *)
Fixpoint utf8_chars (s : string) : option (list string) :=
  match s with
  | EmptyString => Some []
  | String a rest =>
      if byte_in 1 127 a then
        cons (String a EmptyString) <$> utf8_chars rest
      else if byte_in 194 223 a then
        match rest with
        | String b r =>
            if byte_in 128 191 b
            then cons (String a (String b EmptyString)) <$> utf8_chars r
            else None
        | EmptyString => None
        end
      else if byte_in 224 239 a then
        match rest with
        | String b (String c r) =>
            if second_of_three a b && byte_in 128 191 c
            then cons (String a (String b (String c EmptyString))) <$> utf8_chars r
            else None
        | _ => None
        end
      else if byte_in 240 244 a then
        match rest with
        | String b (String c (String d r)) =>
            if second_of_four a b && byte_in 128 191 c && byte_in 128 191 d
            then cons (String a (String b (String c (String d EmptyString))))
                   <$> utf8_chars r
            else None
        | _ => None
        end
      else None
  end.

Definition text_ok (s : string) : bool :=
  match utf8_chars s with Some _ => true | None => false end.

(** Characters put together again. *)
Definition join (cs : list string) : string := foldr String.append "" cs.

(** A text in a VARCHAR(n) column: at most [n] characters.  Assigning a
    longer one is an error unless all characters beyond the [n]-th are
    spaces, which are cut off. *)
Definition fit (n : nat) (s : string) : option string :=
  match utf8_chars s with
  | Some cs =>
      if bool_decide (length cs ≤ n)%nat then Some s
      else if forallb (fun c => bool_decide (c = " ")) (drop n cs)
      then Some (join (take n cs))
      else None
  | None => None
  end.

(** The order of the keys of a jsonb object: shorter keys first, keys of
    equal length by their bytes. *)
Definition key_cmp (a b : string) : comparison :=
  match Nat.compare (String.length a) (String.length b) with
  | Eq => String.compare a b
  | c => c
  end.

(** A member joins the members that follow it in the document: a key that
    occurs again later is dropped (the last of equal keys wins), the others
    are kept in key order. *)
Fixpoint add_member (k : string) (v : json) (fields : list (string * json))
  : list (string * json) :=
  match fields with
  | [] => [(k, v)]
  | (k', v') :: rest =>
      match key_cmp k k' with
      | Lt => (k, v) :: (k', v') :: rest
      | Eq => (k', v') :: rest
      | Gt => (k', v') :: add_member k v rest
      end
  end.

(** The jsonb value of a JSON document: object keys unique and in key
    order, at every depth; a document with a string or key that is no text
    has none. *)
Fixpoint to_jsonb (j : json) : option json :=
  match j with
  | JNull | JBool _ | JNum _ => Some j
  | JStr s => if text_ok s then Some j else None
  | JArr items => JArr <$> mapM to_jsonb items
  | JObj fields =>
      members ← mapM (fun kv : string * json =>
                        v ← to_jsonb kv.2;
                        if text_ok kv.1 then Some (kv.1, v) else None)
                     fields;
      Some (JObj (foldr (fun kv acc => add_member kv.1 kv.2 acc) [] members))
  end.

(** Keys strictly ascending in key order. *)
Fixpoint keys_ascending (fields : list (string * json)) : bool :=
  match fields with
  | [] => true
  | (k, _) :: rest =>
      match rest with
      | [] => true
      | (k', _) :: _ =>
          match key_cmp k k' with Lt => keys_ascending rest | _ => false end
      end
  end.

(** A JSON document that is a jsonb value as it stands. *)
Fixpoint json_normal (j : json) : bool :=
  match j with
  | JNull | JBool _ | JNum _ => true
  | JStr s => text_ok s
  | JArr items => forallb json_normal items
  | JObj fields =>
      forallb (fun kv : string * json => text_ok kv.1 && json_normal kv.2) fields
      && keys_ascending fields
  end.

(** A value is in the form a column of the type stores; NULL is, for every
    type.  VARCHAR(n) holds texts of at most [n] characters, TEXT any text,
    INTEGER is 32-bit, JSONB holds jsonb values. *)
Definition has_type (v : sql_value) (ty : sql_type) : bool :=
  match v, ty with
  | VNull, _ => true
  | VUuid _, UUID => true
  | VString s, VARCHAR n =>
      match utf8_chars s with
      | Some cs => bool_decide (length cs ≤ n)%nat
      | None => false
      end
  | VString s, TEXT => text_ok s
  | VBool _, BOOLEAN => true
  | VInt n, INTEGER => bool_decide (-2147483648 ≤ n ≤ 2147483647)
  | VTime _, TIMESTAMPTZ => true
  | VJson j, JSONB => json_normal j
  | VInet _, INET => true
  | _, _ => false
  end.

(** The text a value of another type becomes when it is assigned to a text
    column.  [show] is the text the server prints for a timestamp, a jsonb
    value or an inet address; it depends on the session (DateStyle,
    TimeZone) and is not fixed here.  A uuid is carried in its text form. *)
Definition text_of (show : sql_value -> string) (v : sql_value) : string :=
  match v with
  | VString s => s
  | VInt n => pretty n
  | VBool b => if b then "true" else "false"
  | VUuid u => u
  | _ => show v
  end.

(** Assignment to a column: the value the column stores when a statement
    gives [v], or [None] when the statement fails.  Values of every type
    are cast to text for a text column, a text for VARCHAR(n) is cut of
    excess trailing spaces, a JSON document becomes its jsonb value;
    there is no assignment cast between the other types. *)
Definition coerce (show : sql_value -> string) (ty : sql_type) (v : sql_value)
  : option sql_value :=
  match v with
  | VNull => Some VNull
  | _ =>
      match ty with
      | VARCHAR n => VString <$> fit n (text_of show v)
      | TEXT =>
          if text_ok (text_of show v) then Some (VString (text_of show v)) else None
      | JSONB =>
          match v with VJson j => VJson <$> to_jsonb j | _ => None end
      | _ => if has_type v ty then Some v else None
      end
  end.

(** DEFAULT expressions. *)
Inductive default_expr : Type :=
| Lit (v : sql_value)
| NOW
| uuid_generate_v4.

(** What the server supplies when a statement runs. *)
Record env : Type := Env { env_now : Z; env_uuid : string }.

Definition eval_default (e : env) (d : default_expr) : sql_value :=
  match d with
  | Lit v => v
  | NOW => VTime (env_now e)
  | uuid_generate_v4 => VUuid (env_uuid e)
  end.

(** A column with its row-level constraints.  [col_check_in] is a
    [CHECK (col IN (...))] clause.  PRIMARY KEY contributes NOT NULL here;
    uniqueness and REFERENCES relate several rows and are outside the
    row-level checks. *)
Record column : Type := Column {
  col_name : string;
  col_type : sql_type;
  col_not_null : bool;
  col_default : option default_expr;
  col_check_in : option (list string)
}.

Definition col (name : string) (ty : sql_type) : column :=
  Column name ty false None None.
Definition NOT_NULL (c : column) : column :=
  Column (col_name c) (col_type c) true (col_default c) (col_check_in c).
Definition PRIMARY_KEY (c : column) : column := NOT_NULL c.
Definition DEFAULT (d : default_expr) (c : column) : column :=
  Column (col_name c) (col_type c) (col_not_null c) (Some d) (col_check_in c).
Definition CHECK_IN (vals : list string) (c : column) : column :=
  Column (col_name c) (col_type c) (col_not_null c) (col_default c) (Some vals).

Record table : Type := Table { tbl_name : string; tbl_columns : list column }.

Definition empty_object : sql_value := VJson (JObj []).
Definition empty_array : sql_value := VJson (JArr []).

Definition tenants : table := Table "tenants" [
  PRIMARY_KEY (DEFAULT uuid_generate_v4 (col "id" UUID));
  NOT_NULL (col "name" (VARCHAR 100));
  NOT_NULL (col "slug" (VARCHAR 50));
  DEFAULT NOW (col "created_at" TIMESTAMPTZ);
  DEFAULT NOW (col "updated_at" TIMESTAMPTZ);
  DEFAULT (Lit (VBool true)) (col "is_active" BOOLEAN);
  DEFAULT (Lit empty_object) (col "settings" JSONB);
  DEFAULT (Lit (VInt 10)) (col "max_users" INTEGER);
  DEFAULT (Lit (VInt 50)) (col "max_accounts" INTEGER) ].

Definition users : table := Table "users" [
  PRIMARY_KEY (DEFAULT uuid_generate_v4 (col "id" UUID));
  col "tenant_id" UUID;
  NOT_NULL (col "email" (VARCHAR 255));
  NOT_NULL (col "password_hash" (VARCHAR 255));
  col "full_name" (VARCHAR 100);
  CHECK_IN ["admin"; "user"; "viewer"]
    (DEFAULT (Lit (VString "user")) (col "role" (VARCHAR 20)));
  DEFAULT (Lit (VBool true)) (col "is_active" BOOLEAN);
  DEFAULT NOW (col "created_at" TIMESTAMPTZ);
  DEFAULT NOW (col "updated_at" TIMESTAMPTZ);
  col "last_login" TIMESTAMPTZ;
  DEFAULT (Lit empty_object) (col "settings" JSONB) ].

Definition platforms : table := Table "platforms" [
  PRIMARY_KEY (DEFAULT uuid_generate_v4 (col "id" UUID));
  NOT_NULL (col "name" (VARCHAR 50));
  NOT_NULL (col "display_name" (VARCHAR 100));
  col "api_endpoint" (VARCHAR 255);
  CHECK_IN ["oauth"; "api_key"; "token"]
    (DEFAULT (Lit (VString "oauth")) (col "auth_type" (VARCHAR 20)));
  DEFAULT (Lit (VBool true)) (col "is_active" BOOLEAN);
  DEFAULT (Lit empty_object) (col "config" JSONB);
  DEFAULT NOW (col "created_at" TIMESTAMPTZ) ].

Definition social_accounts : table := Table "social_accounts" [
  PRIMARY_KEY (DEFAULT uuid_generate_v4 (col "id" UUID));
  col "tenant_id" UUID;
  col "user_id" UUID;
  col "platform_id" UUID;
  NOT_NULL (col "account_name" (VARCHAR 100));
  col "account_handle" (VARCHAR 100);
  col "access_token" TEXT;
  col "refresh_token" TEXT;
  col "token_expires_at" TIMESTAMPTZ;
  DEFAULT (Lit (VBool true)) (col "is_active" BOOLEAN);
  DEFAULT (Lit (VBool false)) (col "is_verified" BOOLEAN);
  col "last_sync" TIMESTAMPTZ;
  DEFAULT NOW (col "created_at" TIMESTAMPTZ);
  DEFAULT NOW (col "updated_at" TIMESTAMPTZ);
  DEFAULT (Lit empty_object) (col "metadata" JSONB) ].

Definition api_keys : table := Table "api_keys" [
  PRIMARY_KEY (DEFAULT uuid_generate_v4 (col "id" UUID));
  col "tenant_id" UUID;
  col "user_id" UUID;
  NOT_NULL (col "key_name" (VARCHAR 100));
  NOT_NULL (col "key_value" TEXT);
  col "platform_id" UUID;
  DEFAULT (Lit (VBool true)) (col "is_active" BOOLEAN);
  col "expires_at" TIMESTAMPTZ;
  DEFAULT NOW (col "created_at" TIMESTAMPTZ);
  col "last_used" TIMESTAMPTZ;
  DEFAULT (Lit (VInt 0)) (col "usage_count" INTEGER) ].

Definition content_templates : table := Table "content_templates" [
  PRIMARY_KEY (DEFAULT uuid_generate_v4 (col "id" UUID));
  col "tenant_id" UUID;
  col "user_id" UUID;
  NOT_NULL (col "name" (VARCHAR 100));
  col "description" TEXT;
  NOT_NULL (col "content" TEXT);
  CHECK_IN ["post"; "story"; "thread"; "video"]
    (DEFAULT (Lit (VString "post")) (col "template_type" (VARCHAR 20)));
  DEFAULT (Lit empty_array) (col "variables" JSONB);
  DEFAULT (Lit (VBool true)) (col "is_active" BOOLEAN);
  DEFAULT NOW (col "created_at" TIMESTAMPTZ);
  DEFAULT NOW (col "updated_at" TIMESTAMPTZ);
  DEFAULT (Lit (VInt 0)) (col "usage_count" INTEGER) ].

(** The lists of the CHECK constraints on [scheduled_posts.status],
    [automation_rules.trigger_type] and [automation_rules.action_type]. *)
Definition post_statuses : list string :=
  ["scheduled"; "published"; "failed"; "cancelled"].

Definition trigger_types : list string :=
  ["time_based"; "content_based"; "engagement_based"; "hashtag_based"].

Definition action_types : list string :=
  ["post"; "like"; "comment"; "follow"; "share"].

Definition scheduled_posts : table := Table "scheduled_posts" [
  PRIMARY_KEY (DEFAULT uuid_generate_v4 (col "id" UUID));
  col "tenant_id" UUID;
  col "user_id" UUID;
  col "template_id" UUID;
  col "title" (VARCHAR 200);
  NOT_NULL (col "content" TEXT);
  DEFAULT (Lit empty_array) (col "media_urls" JSONB);
  NOT_NULL (col "scheduled_time" TIMESTAMPTZ);
  CHECK_IN post_statuses
    (DEFAULT (Lit (VString "scheduled")) (col "status" (VARCHAR 20)));
  NOT_NULL (col "target_accounts" JSONB);
  DEFAULT NOW (col "created_at" TIMESTAMPTZ);
  DEFAULT NOW (col "updated_at" TIMESTAMPTZ);
  col "published_at" TIMESTAMPTZ;
  col "error_message" TEXT ].

Definition automation_rules : table := Table "automation_rules" [
  PRIMARY_KEY (DEFAULT uuid_generate_v4 (col "id" UUID));
  col "tenant_id" UUID;
  col "user_id" UUID;
  NOT_NULL (col "name" (VARCHAR 100));
  col "description" TEXT;
  CHECK_IN trigger_types (NOT_NULL (col "trigger_type" (VARCHAR 30)));
  NOT_NULL (col "trigger_config" JSONB);
  CHECK_IN action_types (NOT_NULL (col "action_type" (VARCHAR 30)));
  NOT_NULL (col "action_config" JSONB);
  NOT_NULL (col "target_accounts" JSONB);
  DEFAULT (Lit (VBool true)) (col "is_active" BOOLEAN);
  DEFAULT NOW (col "created_at" TIMESTAMPTZ);
  DEFAULT NOW (col "updated_at" TIMESTAMPTZ);
  col "last_executed" TIMESTAMPTZ;
  DEFAULT (Lit (VInt 0)) (col "execution_count" INTEGER) ].

Definition analytics : table := Table "analytics" [
  PRIMARY_KEY (DEFAULT uuid_generate_v4 (col "id" UUID));
  col "tenant_id" UUID;
  col "social_account_id" UUID;
  col "post_id" (VARCHAR 100);
  CHECK_IN ["likes"; "shares"; "comments"; "views"; "clicks"; "reach"; "impressions"]
    (NOT_NULL (col "metric_type" (VARCHAR 30)));
  DEFAULT (Lit (VInt 0)) (NOT_NULL (col "metric_value" INTEGER));
  DEFAULT NOW (col "recorded_at" TIMESTAMPTZ);
  DEFAULT (Lit empty_object) (col "metadata" JSONB) ].

Definition activity_logs : table := Table "activity_logs" [
  PRIMARY_KEY (DEFAULT uuid_generate_v4 (col "id" UUID));
  col "tenant_id" UUID;
  col "user_id" UUID;
  NOT_NULL (col "action" (VARCHAR 50));
  col "resource_type" (VARCHAR 30);
  col "resource_id" UUID;
  DEFAULT (Lit empty_object) (col "details" JSONB);
  col "ip_address" INET;
  col "user_agent" TEXT;
  DEFAULT NOW (col "created_at" TIMESTAMPTZ) ].

(** A row maps column names to values; an absent column reads as NULL. *)
Abbreviation row := (gmap string sql_value).

Definition value_of (r : row) (c : string) : sql_value :=
  default VNull (r !! c).

Definition column_names (t : table) : list string :=
  col_name <$> tbl_columns t.

Definition has_column (t : table) (c : string) : bool :=
  bool_decide (c ∈ column_names t).

(** [CHECK (c IN (v1, ..., vn))]: with a NULL operand the test is NULL, and
    a CHECK constraint is violated only by FALSE. *)
Definition check_ok (chk : option (list string)) (v : sql_value) : bool :=
  match chk, v with
  | None, _ => true
  | Some _, VNull => true
  | Some vals, VString s => bool_decide (s ∈ vals)
  | Some _, _ => false
  end.

Definition column_ok (c : column) (v : sql_value) : bool :=
  has_type v (col_type c)
  && (negb (col_not_null c) || negb (is_null v))
  && check_ok (col_check_in c) v.

Definition row_ok (t : table) (r : row) : bool :=
  forallb (fun c => column_ok c (value_of r (col_name c))) (tbl_columns t).

(** A statement may only name columns of its table. *)
Definition known_columns (t : table) (assignments : row) : bool :=
  forallb (has_column t) (map fst (map_to_list assignments)).

(** [INSERT INTO t (...) VALUES (...)]: columns that are not listed take
    their DEFAULT, or NULL when they have none. *)
Definition insert_value (e : env) (vals : row) (c : column) : sql_value :=
  match vals !! col_name c with
  | Some v => v
  | None => from_option (eval_default e) VNull (col_default c)
  end.

Definition new_row (t : table) (e : env) (vals : row) : row :=
  list_to_map ((fun c => (col_name c, insert_value e vals c)) <$> tbl_columns t).

Definition sql_insert (t : table) (e : env) (vals : row) : option row :=
  if known_columns t vals
  then let r := new_row t e vals in if row_ok t r then Some r else None
  else None.

(** The trigger function:
    [NEW.updated_at = NOW(); RETURN NEW;].  Assigning a field the record
    does not have is a run-time error ([None]). *)
Definition update_updated_at_column (t : table) (now : Z) (NEW : row)
  : option row :=
  if has_column t "updated_at"
  then Some (<["updated_at" := VTime now]> NEW)
  else None.

(** [CREATE TRIGGER name BEFORE UPDATE ON tbl FOR EACH ROW EXECUTE FUNCTION
    update_updated_at_column()]. *)
Record trigger : Type := Trigger { trg_name : string; trg_table : string }.

Definition triggers : list trigger := [
  Trigger "update_tenants_updated_at" "tenants";
  Trigger "update_users_updated_at" "users";
  Trigger "update_social_accounts_updated_at" "social_accounts";
  Trigger "update_content_templates_updated_at" "content_templates";
  Trigger "update_scheduled_posts_updated_at" "scheduled_posts";
  Trigger "update_automation_rules_updated_at" "automation_rules" ].

Definition triggers_on (t : table) : list trigger :=
  List.filter (fun g => bool_decide (trg_table g = tbl_name t)) triggers.

(** The BEFORE UPDATE row triggers of a table run in turn on NEW. *)
Fixpoint fire_triggers (gs : list trigger) (t : table) (now : Z) (NEW : row)
  : option row :=
  match gs with
  | [] => Some NEW
  | _ :: gs' =>
      match update_updated_at_column t now NEW with
      | Some NEW' => fire_triggers gs' t now NEW'
      | None => None
      end
  end.

Definition before_update (t : table) (now : Z) (NEW : row) : option row :=
  fire_triggers (triggers_on t) t now NEW.

(** [UPDATE t SET ... WHERE <this row>]: NEW is OLD overwritten by the SET
    list, the BEFORE UPDATE triggers rewrite NEW, and the result is stored
    when it satisfies the column constraints. *)
Definition sql_update (t : table) (now : Z) (OLD assignments : row)
  : option row :=
  if known_columns t assignments
  then match before_update t now (assignments ∪ OLD) with
       | Some NEW => if row_ok t NEW then Some NEW else None
       | None => None
       end
  else None.

(** *** Statements with their assignment conversions *)

(** [sql_insert] and [sql_update] take values that are in the form their
    columns store and refuse every other; the statements below first
    convert the values they are given, as the server does. *)

Definition column_named (t : table) (c : string) : option column :=
  List.find (fun k => bool_decide (col_name k = c)) (tbl_columns t).

(** The value column [c] of [t] stores for [v]; naming a column the table
    does not have is an error. *)
Definition convert (show : sql_value -> string) (t : table) (c : string)
    (v : sql_value) : option sql_value :=
  match column_named t c with
  | Some k => coerce show (col_type k) v
  | None => None
  end.

(** The values of a statement, converted; the statement fails when one of
    the conversions does. *)
Definition coerce_row (show : sql_value -> string) (t : table) (vals : row)
  : option row :=
  if forallb (fun cv : string * sql_value =>
                bool_decide (is_Some (convert show t cv.1 cv.2)))
             (map_to_list vals)
  then Some (map_imap (convert show t) vals)
  else None.

(** [INSERT INTO t (...) VALUES (...)]. *)
Definition insert_statement (show : sql_value -> string) (t : table) (e : env)
    (vals : row) : option row :=
  coerce_row show t vals ≫= sql_insert t e.

(** [UPDATE t SET ... WHERE <this row>]. *)
Definition update_statement (show : sql_value -> string) (t : table) (now : Z)
    (OLD assignments : row) : option row :=
  coerce_row show t assignments ≫= sql_update t now OLD.

(** The tables the update triggers are attached to. *)
Definition timestamped_tables : list table :=
  [tenants; users; social_accounts; content_templates; scheduled_posts;
   automation_rules].

Definition all_tables : list table :=
  [tenants; users; platforms; social_accounts; api_keys; content_templates;
   scheduled_posts; automation_rules; analytics; activity_logs].

(** A value is NULL or one of the four statuses of the CHECK constraint. *)
Definition status_admitted (v : sql_value) : Prop :=
  v = VNull ∨ ∃ s, v = VString s ∧ s ∈ post_statuses.

(** The INSERT an authoring surface issues for a rule: the columns without
    a default are given, the others ([is_active] among them) are not. *)
Definition rule_values (name ty : string) (cfg : json) (act : string)
    (acfg targets : json) : row :=
  {[ "name" := VString name;
     "trigger_type" := VString ty;
     "trigger_config" := VJson cfg;
     "action_type" := VString act;
     "action_config" := VJson acfg;
     "target_accounts" := VJson targets ]}.

End Schema.

(* ===================================================================== *)
(** ** The account-manager page ([pages/accounts/index.tsx])               *)
(* ===================================================================== *)

Module AccountManager.

(** JavaScript values as far as [!==] tells them apart.  Numbers are the
    integer keys the server hands out (JSON carries no NaN); an object is
    identified by its reference. *)
Inductive js_value : Type :=
| Undefined
| Null
| Boolean (b : bool)
| Number (n : Z)
| Str (s : string)
| Object (ref : nat).

(** Strict equality [a === b]. *)
Definition strict_eq (a b : js_value) : bool :=
  match a, b with
  | Undefined, Undefined => true
  | Null, Null => true
  | Boolean x, Boolean y => bool_decide (x = y)
  | Number x, Number y => bool_decide (x = y)
  | Str x, Str y => bool_decide (x = y)
  | Object x, Object y => bool_decide (x = y)
  | _, _ => false
  end.

(** [a !== b]. *)
Definition strict_ne (a b : js_value) : bool := negb (strict_eq a b).

(** An entry of the [users] state: the fields the page reads.  The page
    renders [u.id], [u.nickname], [u.username] and [u.platform] of every
    entry before any button can be pressed, so entries are values on which
    a property read succeeds; a member that is absent reads as
    [Undefined]. *)
Record user : Type := User {
  id : js_value;
  username : js_value;
  nickname : js_value;
  platform : js_value
}.

(** How the promise returned by [fetch] settles: it is fulfilled with a
    response for every HTTP status, and rejected only when no response
    arrives. *)
Inductive settled : Type :=
| Fulfilled (http_status : nat)
| Rejected.

(** [deleteUser(id)]:
    [fetch(`/api/users/${id}`, {method: "DELETE"})
       .then(() => setUsers(users.filter((u:any) => u.id !== id)))].
    [users] is the list the rendering closure captured (the list on
    display when the button was pressed); [current] is the state when the
    promise settles.  The result is the [users] state afterwards. *)
Definition deleteUser (users : list user) (id0 : js_value)
    (res : settled) (current : list user) : list user :=
  match res with
  | Fulfilled _ => List.filter (fun u => strict_ne (id u) id0) users
  | Rejected => current
  end.

End AccountManager.

(* ===================================================================== *)
(** ** The dispatch core                                                   *)
(* ===================================================================== *)

Module Core.

(** The source tree holds the schema and the dashboard pages; the adapter
    registry, the credential lifecycle, the scheduler, the rule engine and
    the ledger are missing from it.  Every definition of this module is
    therefore written from the design document, section by section. *)

(** *** Platform Adapter Registry *)

(** Modelled from the spec: the result of an adapter operation (the
    adapters are missing), [Ok(remote_id)] or one of the typed failures
    [AuthExpired], [RateLimited(retry_after)], [PlatformRejected(reason)],
    [Transient(cause)]. *)
Inductive dispatch_result : Type :=
| Ok (remote_id : string)
| AuthExpired
| RateLimited (retry_after : Z)
| PlatformRejected (reason : string)
| Transient (cause : string).








(** *** Error taxonomy and the Execution Ledger *)

(** Modelled from the spec: the failure taxonomy of the error-handling
    design (no error handling exists in the repository), which adds
    [CredentialInvalid], raised by the credential lifecycle and not by an
    adapter. *)
Inductive failure : Type :=
| FAuthExpired
| FRateLimited (retry_after : Z)
| FPlatformRejected (reason : string)
| FTransient (cause : string)
| FCredentialInvalid.

(** Modelled from the spec: the retry classification of the missing
    scheduler: AuthExpired, RateLimited and Transient are retryable,
    PlatformRejected and CredentialInvalid are not. *)
Definition retryable (f : failure) : bool :=
  match f with
  | FAuthExpired | FRateLimited _ | FTransient _ => true
  | FPlatformRejected _ | FCredentialInvalid => false
  end.

(** Modelled from the spec: the outcome field of a ledger entry (the
    ledger is missing): the id the platform returned, or a classified
    failure. *)
Inductive outcome : Type :=
| Success (remote_id : string)
| Failure (f : failure).

(** Modelled from the spec: a successful attempt, as the missing scheduler
    reads it off the ledger. *)
Definition is_success (o : outcome) : bool :=
  match o with Success _ => true | Failure _ => false end.

(** Modelled from the spec: a non-retryable outcome, as the missing
    scheduler reads it off the ledger. *)
Definition is_permanent (o : outcome) : bool :=
  match o with Success _ => false | Failure f => negb (retryable f) end.

(** Modelled from the spec: what one dispatch attempt meets at the
    collaborators of the missing core: the credential lifecycle fails, the
    adapter answers, or the deadline of the call passes. *)
Inductive reply : Type :=
| CredentialRefreshFailed
| Answered (r : dispatch_result)
| DeadlineExceeded.

(** Modelled from the spec: the classification the missing scheduler and
    rule engine apply to what an attempt met: adapter failures keep their
    type, a refresh failure is [CredentialInvalid], exceeding the deadline
    is treated as [Transient]. *)
Definition classify (x : reply) : outcome :=
  match x with
  | CredentialRefreshFailed => Failure FCredentialInvalid
  | Answered (Ok rid) => Success rid
  | Answered AuthExpired => Failure FAuthExpired
  | Answered (RateLimited d) => Failure (FRateLimited d)
  | Answered (PlatformRejected why) => Failure (FPlatformRejected why)
  | Answered (Transient why) => Failure (FTransient why)
  | DeadlineExceeded => Failure (FTransient "deadline exceeded")
  end.

(** Modelled from the spec: the identity of a ScheduledPost of the missing
    core; posts are authored outside the core or created by a rule
    firing. *)
Inductive post_id : Type :=
| Authored (name : string)
| Generated (rule : string) (firing : nat).

(** Modelled from the spec: what an entry of the missing ledger refers to,
    a ScheduledPost or a rule-firing event. *)
Inductive origin : Type :=
| FromPost (p : post_id)
| FromRule (rule : string) (firing : nat).

#[global] Instance post_id_eq_dec : EqDecision post_id.
Proof. solve_decision. Defined.
#[global] Instance origin_eq_dec : EqDecision origin.
Proof. solve_decision. Defined.

(** Modelled from the spec: a DispatchAttempt, the entry of the missing
    ledger: origin, target account, outcome, timestamp, attempt number. *)
Record DispatchAttempt : Type := Attempt {
  da_origin : origin;
  da_account : string;
  da_outcome : outcome;
  da_timestamp : Z;
  da_attempt : nat
}.

(** Modelled from the spec: [record(attempt)], the one operation of the
    missing Execution Ledger, an append-only sink. *)
Definition record (a : DispatchAttempt) (ledger : list DispatchAttempt)
  : list DispatchAttempt :=
  ledger ++ [a].

(** Modelled from the spec: the ledger entries of one origin for one
    target account, which the missing scheduler and rule engine consult. *)
Definition attempts_of (o : origin) (account : string)
    (ledger : list DispatchAttempt) : list DispatchAttempt :=
  List.filter
    (fun a => bool_decide (da_origin a = o) && bool_decide (da_account a = account))
    ledger.

(** *** Scheduled posts *)

(** Modelled from the spec: the status of a ScheduledPost as the missing
    scheduler sees it. *)
Inductive status : Type :=
| scheduled | publishing | published | failed | cancelled.

#[global] Instance status_eq_dec : EqDecision status.
Proof. solve_decision. Defined.

(** Modelled from the spec: the name under which the missing scheduler
    would store a status in the status column. *)
Definition status_name (s : status) : string :=
  match s with
  | scheduled => "scheduled"
  | publishing => "publishing"
  | published => "published"
  | failed => "failed"
  | cancelled => "cancelled"
  end.

(** Modelled from the spec: the state machine of the missing scheduler,
    scheduled -> publishing -> {published, failed}, scheduled -> cancelled,
    and the operator-triggered retry that re-enters scheduled from
    published or failed. *)
Definition spec_transition (a b : status) : bool :=
  match a, b with
  | scheduled, publishing => true
  | publishing, published => true
  | publishing, failed => true
  | scheduled, cancelled => true
  | published, scheduled => true
  | failed, scheduled => true
  | _, _ => false
  end.

(** Modelled from the spec: a TargetAccount as the missing core reads it:
    platform identifier, account reference, credential reference,
    [is_active]. *)
Record TargetAccount : Type := Target {
  ta_platform : string;
  ta_account : string;
  ta_credential : string;
  ta_is_active : bool
}.

(** Modelled from the spec: a ScheduledPost as the missing scheduler
    handles it.  [sp_claimed_at] is the time of the current claim, which
    the lease is measured from. *)
Record ScheduledPost : Type := Post {
  sp_id : post_id;
  sp_targets : list TargetAccount;
  sp_content : string;
  sp_scheduled_time : Z;
  sp_status : status;
  sp_error_detail : option string;
  sp_published_at : option Z;
  sp_claimed_at : option Z
}.

(** Modelled from the spec: the three writes of the missing scheduler to a
    post: the claim (status publishing), and the terminal statuses with
    [published_at] or [error_detail]. *)
Definition mark_claimed (now : Z) (p : ScheduledPost) : ScheduledPost :=
  Post (sp_id p) (sp_targets p) (sp_content p) (sp_scheduled_time p)
       publishing (sp_error_detail p) (sp_published_at p) (Some now).

(** Modelled from the spec: the missing scheduler marks a post published. *)
Definition mark_published (now : Z) (p : ScheduledPost) : ScheduledPost :=
  Post (sp_id p) (sp_targets p) (sp_content p) (sp_scheduled_time p)
       published (sp_error_detail p) (Some now) (sp_claimed_at p).

(** Modelled from the spec: the missing scheduler marks a post failed and
    populates its error detail. *)
Definition mark_failed (detail : string) (p : ScheduledPost) : ScheduledPost :=
  Post (sp_id p) (sp_targets p) (sp_content p) (sp_scheduled_time p)
       failed (Some detail) (sp_published_at p) (sp_claimed_at p).

(** Modelled from the spec: the missing ledger together with the count of
    dispatch attempts the core has made so far. *)
Record journal : Type := Journal {
  ledger : list DispatchAttempt;
  tick : nat
}.

(** *** Automation rules *)

(** Modelled from the spec: the trigger types of the missing rule engine. *)
Inductive trigger_type : Type :=
| time_based | content_based | engagement_based | hashtag_based.

Module Action.
(** Modelled from the spec: the action types of the missing rule engine. *)
Inductive t : Type := post | like | comment | follow | share.
End Action.

(** Modelled from the spec: a well-formed trigger of the missing rule
    engine: a schedule expression, a keyword/pattern set, a metric
    threshold or a hashtag set, according to the trigger type. *)
Inductive trigger : Type :=
| TimeBased (schedule : string)
| ContentBased (patterns : list string)
| EngagementBased (metric : string) (threshold : Z)
| HashtagBased (hashtags : list string).

(** Modelled from the spec: the trigger type a trigger belongs to. *)
Definition trigger_type_of (g : trigger) : trigger_type :=
  match g with
  | TimeBased _ => time_based
  | ContentBased _ => content_based
  | EngagementBased _ _ => engagement_based
  | HashtagBased _ => hashtag_based
  end.

(** Modelled from the spec: reading a member of a stored configuration, for
    the missing shape validation; as in jsonb, the last of several equal
    keys wins. *)
Fixpoint json_field (k : string) (fields : list (string * json)) : option json :=
  match fields with
  | [] => None
  | (k', v) :: rest =>
      match json_field k rest with
      | Some w => Some w
      | None => if bool_decide (k' = k) then Some v else None
      end
  end.

(** Modelled from the spec: a configuration member that must be a string. *)
Definition json_string (j : json) : option string :=
  match j with JStr s => Some s | _ => None end.

(** Modelled from the spec: a configuration member that must be a set of
    strings. *)
Definition json_strings (j : json) : option (list string) :=
  match j with JArr items => mapM json_string items | _ => None end.

(** Modelled from the spec: the missing validation of the shape of a
    stored [trigger_config] against its [trigger_type].  The design
    document names what each configuration holds but not the JSON member
    names, so the member names below are this model's choice. *)
Definition decode_trigger (ty : string) (cfg : json) : option trigger :=
  match cfg with
  | JObj fields =>
      if bool_decide (ty = "time_based") then
        s ← json_field "schedule" fields ≫= json_string; Some (TimeBased s)
      else if bool_decide (ty = "content_based") then
        ks ← json_field "patterns" fields ≫= json_strings; Some (ContentBased ks)
      else if bool_decide (ty = "engagement_based") then
        m ← json_field "metric" fields ≫= json_string;
        match json_field "threshold" fields with
        | Some (JNum n) => Some (EngagementBased m n)
        | _ => None
        end
      else if bool_decide (ty = "hashtag_based") then
        hs ← json_field "hashtags" fields ≫= json_strings; Some (HashtagBased hs)
      else None
  | _ => None
  end.




Section Engine.

(** Modelled from the spec: the parameters of the missing scheduler, the
    capped attempt count per target (default 5) and the maximum lease
    duration of a claim. *)
Variable max_attempts : nat.
Variable lease : Z.

(** Modelled from the spec: the platforms and the credential store are
    external; [platform n] is what the [n]-th dispatch attempt of the run
    meets there. *)
Variable platform : nat -> reply.

(** *** Publish Scheduler *)

(** Modelled from the spec: one dispatch attempt of the missing core; what
    the attempt met is classified and recorded once, with its attempt
    number for this origin and account. *)
Definition attempt (o : origin) (account : string) (now : Z) (j : journal)
  : journal :=
  let n := S (length (attempts_of o account (ledger j))) in
  Journal
    (record (Attempt o account (classify (platform (tick j))) now n) (ledger j))
    (S (tick j)).

(** Modelled from the spec: a target of the missing scheduler succeeded
    when the ledger holds a successful attempt for it. *)
Definition target_succeeded (o : origin) (account : string)
    (l : list DispatchAttempt) : bool :=
  existsb (fun a => is_success (da_outcome a)) (attempts_of o account l).

(** Modelled from the spec: a target of the missing scheduler has
    permanently failed when it has not succeeded and either met a
    non-retryable outcome or used up its attempts. *)
Definition target_failed (o : origin) (account : string)
    (l : list DispatchAttempt) : bool :=
  negb (target_succeeded o account l)
  && (existsb (fun a => is_permanent (da_outcome a)) (attempts_of o account l)
      || bool_decide (max_attempts ≤ length (attempts_of o account l))%nat).

(** Modelled from the spec: the dispatch of the missing scheduler to one
    target; a target that is neither done nor lost gets one more attempt in
    this pass, later attempts are left to later passes. *)
Definition dispatch_target (o : origin) (now : Z) (j : journal)
    (t : TargetAccount) : journal :=
  if target_succeeded o (ta_account t) (ledger j)
     || target_failed o (ta_account t) (ledger j)
  then j
  else attempt o (ta_account t) now j.

(** Modelled from the spec: the dispatch of the missing scheduler to every
    target of a post (independent of each other; taken here in list
    order). *)
Definition dispatch_all (o : origin) (now : Z) (ts : list TargetAccount)
    (j : journal) : journal :=
  fold_left (dispatch_target o now) ts j.

(** Modelled from the spec: the reason the missing scheduler reports for a
    failed attempt. *)
Definition failure_text (o : outcome) : string :=
  match o with
  | Success _ => ""
  | Failure FAuthExpired => "auth expired"
  | Failure (FRateLimited _) => "rate limited"
  | Failure (FPlatformRejected why) => why
  | Failure (FTransient why) => why
  | Failure FCredentialInvalid => "credential invalid"
  end.

(** Modelled from the spec: the error detail the missing scheduler
    populates; it names the platform of the first lost target and the
    reason of its last attempt. *)
Definition error_detail (o : origin) (ts : list TargetAccount)
    (l : list DispatchAttempt) : string :=
  match List.find (fun t => target_failed o (ta_account t) l) ts with
  | Some t =>
      (ta_platform t ++ ": " ++
       from_option (fun a => failure_text (da_outcome a)) ""
                   (last (attempts_of o (ta_account t) l)))%string
  | None => ""
  end.

(** Modelled from the spec: the post-level status the missing scheduler
    sets after dispatching: published only if all targets succeeded, failed
    if any target permanently failed, otherwise the post remains
    publishing. *)
Definition resolve (now : Z) (p : ScheduledPost) (l : list DispatchAttempt)
  : ScheduledPost :=
  let o := FromPost (sp_id p) in
  if forallb (fun t => target_succeeded o (ta_account t) l) (sp_targets p)
  then mark_published now p
  else if existsb (fun t => target_failed o (ta_account t) l) (sp_targets p)
  then mark_failed (error_detail o (sp_targets p) l) p
  else p.

(** Modelled from the spec: the selection of the missing scheduler; a post
    is selected when it is due and [scheduled], or when its claim was not
    resolved within the lease (an abandoned claim). *)
Definition selectable (now : Z) (p : ScheduledPost) : bool :=
  match sp_status p with
  | scheduled => bool_decide (sp_scheduled_time p ≤ now)
  | publishing =>
      match sp_claimed_at p with
      | Some t => bool_decide (t + lease ≤ now)
      | None => false
      end
  | _ => false
  end.

(** Modelled from the spec: the claim of the missing scheduler, one atomic
    conditional update of the post (compare-and-swap on its status). *)
Definition claim (now : Z) (p : ScheduledPost) : option ScheduledPost :=
  if selectable now p then Some (mark_claimed now p) else None.

(** Modelled from the spec: the claim-and-dispatch cycle of the missing
    scheduler on one post. *)
Definition process_post (now : Z) (p : ScheduledPost) (j : journal)
  : ScheduledPost * journal :=
  match claim now p with
  | Some c =>
      let j' := dispatch_all (FromPost (sp_id c)) now (sp_targets c) j in
      (resolve now c (ledger j'), j')
  | None => (p, j)
  end.



(** *** Automation Rule Engine *)









(** *** The core as a whole *)






End Engine.






End Core.

(* ===================================================================== *)
(** ** Keys, references and row level security of the schema              *)
(* ===================================================================== *)

Module Keys.
Import Schema.

(** [ON DELETE CASCADE], or no clause (NO ACTION). *)
Inductive referential_action : Type := CASCADE | NO_ACTION.

(** [fk_column ... REFERENCES fk_references(id) [ON DELETE ...]] in the
    definition of [fk_table]. *)
Record foreign_key : Type := ForeignKey {
  fk_table : string;
  fk_column : string;
  fk_references : string;
  fk_on_delete : referential_action
}.

Definition foreign_keys : list foreign_key := [
  ForeignKey "users" "tenant_id" "tenants" CASCADE;
  ForeignKey "social_accounts" "tenant_id" "tenants" CASCADE;
  ForeignKey "social_accounts" "user_id" "users" CASCADE;
  ForeignKey "social_accounts" "platform_id" "platforms" CASCADE;
  ForeignKey "api_keys" "tenant_id" "tenants" CASCADE;
  ForeignKey "api_keys" "user_id" "users" CASCADE;
  ForeignKey "api_keys" "platform_id" "platforms" NO_ACTION;
  ForeignKey "content_templates" "tenant_id" "tenants" CASCADE;
  ForeignKey "content_templates" "user_id" "users" CASCADE;
  ForeignKey "scheduled_posts" "tenant_id" "tenants" CASCADE;
  ForeignKey "scheduled_posts" "user_id" "users" CASCADE;
  ForeignKey "scheduled_posts" "template_id" "content_templates" NO_ACTION;
  ForeignKey "automation_rules" "tenant_id" "tenants" CASCADE;
  ForeignKey "automation_rules" "user_id" "users" CASCADE;
  ForeignKey "analytics" "tenant_id" "tenants" CASCADE;
  ForeignKey "analytics" "social_account_id" "social_accounts" CASCADE;
  ForeignKey "activity_logs" "tenant_id" "tenants" CASCADE;
  ForeignKey "activity_logs" "user_id" "users" NO_ACTION ].

(** The references of the rows of one table. *)
Definition references_of (tn : string) : list foreign_key :=
  List.filter (fun fk => bool_decide (fk_table fk = tn)) foreign_keys.

(** PRIMARY KEY and UNIQUE constraints: the table and its columns. *)
Definition unique_constraints : list (string * list string) := [
  ("tenants", ["id"]); ("tenants", ["slug"]);
  ("users", ["id"]); ("users", ["email"]);
  ("platforms", ["id"]); ("platforms", ["name"]);
  ("social_accounts", ["id"]);
  ("social_accounts", ["tenant_id"; "platform_id"; "account_handle"]);
  ("api_keys", ["id"]);
  ("content_templates", ["id"]);
  ("scheduled_posts", ["id"]);
  ("automation_rules", ["id"]);
  ("analytics", ["id"]);
  ("activity_logs", ["id"]) ].

(** The tables in the order the script creates them. *)
Definition creation_order : list string := tbl_name <$> all_tables.

(** [b] is created after [a]. *)
Definition created_before (a b : string) : bool :=
  match list_find (eq a) creation_order, list_find (eq b) creation_order with
  | Some (i, _), Some (j, _) => bool_decide (i < j)%nat
  | _, _ => false
  end.

(** The stored rows, by table name. *)
Abbreviation database := (gmap string (list row)).

Definition rows_of (db : database) (tn : string) : list row :=
  default [] (db !! tn).

(** [a = b] on key values is true for equal values that are not NULL. *)
Definition same_key (a b : sql_value) : bool :=
  match a, b with
  | VUuid x, VUuid y => bool_decide (x = y)
  | VString x, VString y => bool_decide (x = y)
  | VBool x, VBool y => bool_decide (x = y)
  | VInt x, VInt y => bool_decide (x = y)
  | VTime x, VTime y => bool_decide (x = y)
  | VInet x, VInet y => bool_decide (x = y)
  | _, _ => false
  end.

Definition key_in (v : sql_value) (keys : list sql_value) : bool :=
  existsb (same_key v) keys.

(** A new row breaks a UNIQUE or PRIMARY KEY constraint of its table when
    a stored row agrees with it on all columns of the constraint (rows
    with a NULL among them never agree). *)
Definition agree_on (cols : list string) (r r' : row) : bool :=
  forallb (fun c => same_key (value_of r c) (value_of r' c)) cols.

Definition unique_ok (db : database) (tn : string) (r : row) : bool :=
  forallb
    (fun u : string * list string =>
       negb (bool_decide (u.1 = tn))
       || negb (existsb (agree_on u.2 r) (rows_of db tn)))
    unique_constraints.

(** Every reference of a new row is NULL or names a stored row. *)
Definition references_ok (db : database) (tn : string) (r : row) : bool :=
  forallb
    (fun fk =>
       is_null (value_of r (fk_column fk))
       || existsb (fun r' => same_key (value_of r (fk_column fk)) (value_of r' "id"))
                  (rows_of db (fk_references fk)))
    (references_of tn).

(** [INSERT] into the database: the column constraints, then the keys and
    the references. *)
Definition db_insert (db : database) (t : table) (e : env) (vals : row)
  : option database :=
  match sql_insert t e vals with
  | Some r =>
      if unique_ok db (tbl_name t) r && references_ok db (tbl_name t) r
      then Some (<[tbl_name t := rows_of db (tbl_name t) ++ [r]]> db)
      else None
  | None => None
  end.

Definition is_cascade (a : referential_action) : bool :=
  match a with CASCADE => true | NO_ACTION => false end.

(** A row goes away with [DELETE FROM target WHERE which] when it is a row
    of [target] that satisfies [which], or when one of its ON DELETE
    CASCADE references names a row that goes away; [doomed] holds, by
    table, the ids of the rows that go away. *)
Definition hit (target : string) (which : row -> bool)
    (doomed : gmap string (list sql_value)) (tn : string) (r : row) : bool :=
  (bool_decide (tn = target) && which r)
  || existsb
       (fun fk =>
          is_cascade (fk_on_delete fk)
          && key_in (value_of r (fk_column fk)) (default [] (doomed !! fk_references fk)))
       (references_of tn).

(** The ids that go away, found table by table in creation order (a
    reference always names a table created earlier, so one sweep reaches
    every cascade). *)
Fixpoint sweep (db : database) (target : string) (which : row -> bool)
    (order : list string) (doomed : gmap string (list sql_value))
  : gmap string (list sql_value) :=
  match order with
  | [] => doomed
  | tn :: rest =>
      sweep db target which rest
        (<[tn := (fun r => value_of r "id")
                 <$> List.filter (hit target which doomed tn) (rows_of db tn)]> doomed)
  end.

(** A reference without ON DELETE clause stops the statement when a row
    that stays names a row that goes away. *)
Definition blocked (db : database) (target : string) (which : row -> bool)
    (doomed : gmap string (list sql_value)) : bool :=
  existsb
    (fun fk =>
       negb (is_cascade (fk_on_delete fk))
       && existsb
            (fun r =>
               negb (hit target which doomed (fk_table fk) r)
               && key_in (value_of r (fk_column fk))
                         (default [] (doomed !! fk_references fk)))
            (rows_of db (fk_table fk)))
    foreign_keys.

(** [DELETE FROM target WHERE which]. *)
Definition db_delete (db : database) (target : string) (which : row -> bool)
  : option database :=
  let doomed := sweep db target which creation_order ∅ in
  if blocked db target which doomed then None
  else Some (map_imap
               (fun tn rows =>
                  Some (List.filter (fun r => negb (hit target which doomed tn r)) rows))
               db).

(** A set of tables that contains, with a table, every table its rows
    refer to with ON DELETE CASCADE. *)
Definition cascade_closed (S : list string) : bool :=
  forallb
    (fun tn =>
       forallb (fun fk => negb (is_cascade (fk_on_delete fk))
                          || bool_decide (fk_references fk ∈ S))
               (references_of tn))
    S.

(** Every reference of a stored row is NULL or names a stored row. *)
Definition references_intact (db : database) : Prop :=
  ∀ fk r, fk ∈ foreign_keys → r ∈ rows_of db (fk_table fk) →
    value_of r (fk_column fk) = VNull
    ∨ ∃ r', r' ∈ rows_of db (fk_references fk)
            ∧ same_key (value_of r (fk_column fk)) (value_of r' "id") = true.

(** No two stored rows of a table agree on the columns of one of its
    UNIQUE or PRIMARY KEY constraints. *)
Definition keys_unique (db : database) : Prop :=
  ∀ tn cols i j r r', (tn, cols) ∈ unique_constraints →
    rows_of db tn !! i = Some r → rows_of db tn !! j = Some r' →
    agree_on cols r r' = true →
    i = j.

End Keys.

Module Policies.
Import Schema Keys.

(** [ALTER TABLE ... ENABLE ROW LEVEL SECURITY]. *)
Definition row_level_security : list string :=
  ["tenants"; "users"; "social_accounts"; "api_keys"; "content_templates";
   "scheduled_posts"; "automation_rules"; "analytics"; "activity_logs"].

Inductive command : Type := SELECT | INSERT | UPDATE | DELETE.

Inductive policy_for : Type := FOR_ALL | FOR_SELECT.

(** [CREATE POLICY pol_name ON pol_table FOR pol_for USING (...)].  Both
    policies of the script have the same USING expression,
    [tenant_id IN (SELECT id FROM tenants
                   WHERE slug = current_setting('app.current_tenant', true))],
    and no WITH CHECK (the USING expression then serves as the check). *)
Record policy : Type := Policy {
  pol_name : string;
  pol_table : string;
  pol_for : policy_for
}.

Definition policies : list policy := [
  Policy "Users can view their own tenant data" "users" FOR_SELECT;
  Policy "Users can manage their own social accounts" "social_accounts" FOR_ALL ].

(** Who runs the statement: a role that row level security does not apply
    to (the owner of the tables, a superuser, a BYPASSRLS role) or one it
    applies to; and the setting [app.current_tenant], [None] when it is not
    set ([current_setting(..., true)] is then NULL). *)
Record session : Type := Session {
  bypass_rls : bool;
  current_tenant : option string
}.

(** [slug = current_setting('app.current_tenant', true)] is true. *)
Definition slug_is (setting : option string) (t : row) : bool :=
  match setting, value_of t "slug" with
  | Some s, VString s' => bool_decide (s' = s)
  | _, _ => false
  end.

(** The USING expression is true for row [r], where [seen] are the rows of
    [tenants] the subquery gets to see. *)
Definition using_tenant (setting : option string) (seen : list row) (r : row)
  : bool :=
  existsb (fun t => slug_is setting t
                    && same_key (value_of r "tenant_id") (value_of t "id"))
          seen.

Definition applies (p : policy) (c : command) : bool :=
  match pol_for p, c with
  | FOR_ALL, _ => true
  | FOR_SELECT, SELECT => true
  | FOR_SELECT, _ => false
  end.

(** Row level security lets the session run command [c] on row [r] of
    table [tn] (for INSERT, [r] is the new row): always when it does not
    apply; otherwise when some policy of the table for that command is
    true, and never when the table has none. *)
Definition permitted_seeing (seen : list row) (s : session) (c : command)
    (tn : string) (r : row) : bool :=
  if bypass_rls s || negb (bool_decide (tn ∈ row_level_security)) then true
  else existsb
         (fun p => bool_decide (pol_table p = tn) && applies p c
                   && using_tenant (current_tenant s) seen r)
         policies.

(** The rows of [tenants] the subquery of a policy sees: the subquery runs
    as the session, under the row level security of [tenants] (no policy of
    [tenants] has a subquery of its own). *)
Definition tenants_seen (s : session) (db : database) : list row :=
  List.filter (permitted_seeing [] s SELECT "tenants") (rows_of db "tenants").

Definition permitted (s : session) (db : database) (c : command)
    (tn : string) (r : row) : bool :=
  permitted_seeing (tenants_seen s db) s c tn r.

(** [SELECT * FROM tn] as the session sees it. *)
Definition visible (s : session) (db : database) (tn : string) : list row :=
  List.filter (permitted s db SELECT tn) (rows_of db tn).

End Policies.

(* ===================================================================== *)
(** ** The other handlers of the dashboard pages                           *)
(* ===================================================================== *)

Module Pages.
Import AccountManager.

(** How a request ends whose answer is read with [res.json()] (or
    [res.blob()]): the body was read, whatever the HTTP status; or the body
    could not be parsed and the chain rejects; or no response arrived and
    [fetch] itself rejects. *)
Inductive answer (A : Type) : Type :=
| Parsed (http_status : nat) (body : A)
| NotJson (http_status : nat)
| Failed.
Arguments Parsed {A} http_status body.
Arguments NotJson {A} http_status.
Arguments Failed {A}.

(** The [newUser] form of the account page. *)
Record form : Type := Form {
  form_username : string;
  form_nickname : string;
  form_platform : string
}.

Definition empty_form : form := Form "" "" "".

(** The state of [AccountManager]: [users] and [newUser]. *)
Record account_page : Type := AccountPage {
  users : list user;
  newUser : form
}.

(** [addUser] of [pages/accounts/index.tsx]:
    [fetch("/api/users/", {method: "POST", ..., body: JSON.stringify(newUser)})
       .then(res => res.json())
       .then(user => { setUsers([...users, user]); setNewUser({...empty}) })].
    [seen] is the state the rendering closure captured, [current] the state
    when the promise settles. *)
Definition addUser (seen : account_page) (res : answer user)
    (current : account_page) : account_page :=
  match res with
  | Parsed _ u => AccountPage (users seen ++ [u]) empty_form
  | NotJson _ | Failed => current
  end.

End Pages.

(** [APIKeyManager] (second component of [pages/developer/index.tsx]). *)
Module APIKeyManager.
Import AccountManager Pages.

Record key : Type := Key { id : js_value; name : js_value; value : js_value }.

(** [createKey]: posts [{name: newKey}], then
    [setKeys([...keys, k]); setNewKey("")]; the state is the list and the
    text of the input. *)
Definition createKey (keys : list key) (res : answer key)
    (current : list key * string) : list key * string :=
  match res with
  | Parsed _ k => (keys ++ [k], "")
  | NotJson _ | Failed => current
  end.

(** [deleteKey]:
    [fetch(`/api/developer/api-keys/${id}`, {method: "DELETE"})
       .then(() => setKeys(keys.filter((k:any) => k.id !== id)))]. *)
Definition deleteKey (keys : list key) (id0 : js_value) (res : settled)
    (current : list key) : list key :=
  match res with
  | Fulfilled _ => List.filter (fun k => strict_ne (id k) id0) keys
  | Rejected => current
  end.

End APIKeyManager.

(** [WebhookManager] ([pages/developer/webhooks.tsx]). *)
Module WebhookManager.
Import AccountManager Pages.

Record webhook : Type := Webhook { id : js_value; url : js_value }.

(** [deleteWebhook]:
    [fetch(`/api/developer/webhooks/${id}`, {method: "DELETE"})
       .then(() => setWebhooks(webhooks.filter((w:any) => w.id !== id)))]. *)
Definition deleteWebhook (webhooks : list webhook) (id0 : js_value)
    (res : settled) (current : list webhook) : list webhook :=
  match res with
  | Fulfilled _ => List.filter (fun w => strict_ne (id w) id0) webhooks
  | Rejected => current
  end.

End WebhookManager.

(** [DeveloperPlatform] (first component of [pages/developer/index.tsx]). *)
Module DeveloperPlatform.
Import AccountManager Pages.

(** The parsed profile: a value whose [role] member can be read (an absent
    member reads as [Undefined]), or [null], on which the read throws. *)
Inductive profile : Type :=
| Profile (role : js_value)
| NullProfile.

(** The state [isDev] and the route [Router.replace] was last called with. *)
Record state : Type := State { isDev : bool; replaced : option string }.

Definition initial : state := State false None.

(** The effect run on mount:
    [fetch("/api/user/profile").then(res => res.json()).then(data => {
       if (data.role === "developer") setIsDev(true);
       else Router.replace("/403"); })]. *)
Definition on_profile (res : answer profile) (s : state) : state :=
  match res with
  | Parsed _ (Profile role) =>
      if strict_eq role (Str "developer")
      then State true (replaced s)
      else State (isDev s) (Some "/403")
  | Parsed _ NullProfile | NotJson _ | Failed => s
  end.

Inductive view : Type := Loading | Menu.

(** [if (!isDev) return <div>loading</div>; return <menu>]. *)
Definition render (s : state) : view :=
  if isDev s then Menu else Loading.

(** The [role] member of a profile that is built from a stored row of
    [users]: a text column is carried as a JSON string, NULL as null. *)
Definition stored_role (r : gmap string Schema.sql_value) : js_value :=
  match Schema.value_of r "role" with
  | Schema.VString s => Str s
  | _ => Null
  end.

End DeveloperPlatform.

(** [AccountImportExport] ([pages/accounts/import-export.tsx]). *)
Module AccountImportExport.
Import AccountManager Pages.

(** What the handlers do to the outside, in order. *)
Inductive effect : Type :=
| PostFile (url : string) (file : string)
| Get (url : string)
| Alert
| SaveAs (download : string) (blob : string)
| Revoke.

(** [handleImport]:
    [const file = fileInput.current?.files?.[0]; if (!file) return;
     ... await fetch("/api/accounts/import", {method: "POST", body: formData});
     alert(<import finished>)].  [file] is the chosen file, if any. *)
Definition handleImport (file : option string) (res : settled) : list effect :=
  match file with
  | None => []
  | Some f =>
      PostFile "/api/accounts/import" f ::
      match res with
      | Fulfilled _ => [Alert]
      | Rejected => []
      end
  end.

(** [handleExport]:
    [const res = await fetch("/api/accounts/export");
     const blob = await res.blob();
     ... a.href = url; a.download = "accounts.csv"; a.click();
     window.URL.revokeObjectURL(url)]. *)
Definition handleExport (res : answer string) : list effect :=
  Get "/api/accounts/export" ::
  match res with
  | Parsed _ blob => [SaveAs "accounts.csv" blob; Revoke]
  | NotJson _ | Failed => []
  end.

End AccountImportExport.

(* ===================================================================== *)
(** ** Concrete inputs used by the examples                                *)
(* ===================================================================== *)

Module Samples.
Import Schema.

(** A post as INSERT stores it, with [status] left to its default. *)
Definition sample_post_values : row :=
  {[ "content" := VString "hello";
     "scheduled_time" := VTime 500;
     "target_accounts" := VJson (JArr [JStr "a1"; JStr "a2"]) ]}.

Definition sample_post : row :=
  new_row scheduled_posts (Env 1000 "p1") sample_post_values.

(** The same post after it was cancelled. *)
Definition cancelled_post : row :=
  <["status" := VString "cancelled"]> sample_post.

(** An UPDATE that retitles a post and tries to set [updated_at] itself. *)
Definition retitle : row :=
  {[ "title" := VString "t"; "updated_at" := VTime 7 ]}.

(** A rule whose trigger configuration is not even an object. *)
Definition odd_rule : row :=
  rule_values "boost" "time_based" (JArr [JBool true]) "post" JNull JNull.

Import Core.

Definition account_a : TargetAccount := Target "twitter" "A" "credA" true.
Definition account_b : TargetAccount := Target "facebook" "B" "credB" true.

(** A due post for two accounts. *)
Definition two_target_post : ScheduledPost :=
  Post (Authored "p") [account_a; account_b] "hello" 10 scheduled None None None.

(** The first attempt succeeds, every later one is rejected by the
    platform. *)
Definition first_ok_then_rejected (n : nat) : reply :=
  match n with
  | O => Answered (Ok "r1")
  | S _ => Answered (PlatformRejected "policy")
  end.





End Samples.

(** Further inputs, for the examples about the pages and the whole
    schema. *)
Module Fixtures.
Import AccountManager.

Definition alice : user := User (Number 1) (Str "alice") (Str "Al") (Str "twitter").
Definition bob : user := User (Number 2) (Str "bob") (Str "Bo") (Str "facebook").
Definition carol : user := User (Number 3) (Str "carol") (Str "Ca") (Str "tiktok").

(** A user row as INSERT stores it, with [role] left to its default. *)
Definition user_row : gmap string Schema.sql_value :=
  Schema.new_row Schema.users (Schema.Env 1000 "u1")
    {[ "email" := Schema.VString "a@example.org";
       "password_hash" := Schema.VString "x" ]}.

(** Two API keys. *)
Definition key_one : APIKeyManager.key :=
  APIKeyManager.Key (Str "k1") (Str "ci") (Str "v1").
Definition key_two : APIKeyManager.key :=
  APIKeyManager.Key (Str "k2") (Str "bot") (Str "v2").

(** Setting a post to published. *)
Definition publish : gmap string Schema.sql_value :=
  {[ "status" := Schema.VString "published" ]}.

Import Schema Keys Policies.

(** Two tenants, a user of the first with one activity log and one social
    account, and a platform. *)
Definition tenant_acme : row :=
  new_row tenants (Env 1 "t1")
    {[ "name" := VString "Acme"; "slug" := VString "acme" ]}.

Definition tenant_other : row :=
  new_row tenants (Env 2 "t2")
    {[ "name" := VString "Other"; "slug" := VString "other" ]}.

Definition user_ann : row :=
  new_row users (Env 3 "u1")
    {[ "tenant_id" := VUuid "t1"; "email" := VString "ann@example.org";
       "password_hash" := VString "x" ]}.

Definition platform_x : row :=
  new_row platforms (Env 4 "p1")
    {[ "name" := VString "twitter"; "display_name" := VString "Twitter/X" ]}.

Definition account_ann : row :=
  new_row social_accounts (Env 5 "s1")
    {[ "tenant_id" := VUuid "t1"; "user_id" := VUuid "u1";
       "platform_id" := VUuid "p1"; "account_name" := VString "Ann";
       "account_handle" := VString "@ann" ]}.

Definition log_ann : row :=
  new_row activity_logs (Env 6 "l1")
    {[ "tenant_id" := VUuid "t1"; "user_id" := VUuid "u1";
       "action" := VString "login" ]}.

Definition sample_db : database :=
  {[ "tenants" := [tenant_acme; tenant_other];
     "users" := [user_ann];
     "platforms" := [platform_x];
     "social_accounts" := [account_ann];
     "activity_logs" := [log_ann] ]}.

(** What is left of it when the first tenant is deleted. *)
Definition sample_db_without_acme : database :=
  {[ "tenants" := [tenant_other];
     "users" := [];
     "platforms" := [platform_x];
     "social_accounts" := [];
     "activity_logs" := [] ]}.

(** A second user of the first tenant, and the database with her. *)
Definition bea_values : row :=
  {[ "tenant_id" := VUuid "t1"; "email" := VString "bea@example.org";
     "password_hash" := VString "y" ]}.

Definition sample_db_with_bea : database :=
  <["users" := [user_ann; new_row users (Env 7 "u2") bea_values]]> sample_db.

(** An account of the same tenant on the same platform with no handle,
    and the database that already holds one such account. *)
Definition nameless_values : row :=
  {[ "tenant_id" := VUuid "t1"; "user_id" := VUuid "u1";
     "platform_id" := VUuid "p1"; "account_name" := VString "Ann" ]}.

Definition sample_db_nameless : database :=
  <["social_accounts" :=
      [account_ann; new_row social_accounts (Env 8 "s2") nameless_values]]>
    sample_db.

(** Statements whose values need conversion. *)
Definition show_nothing (v : sql_value) : string := "".



Definition key_row : row :=
  new_row api_keys (Env 1000 "k1")
    {[ "key_name" := VString "ci"; "key_value" := VString "secret" ]}.

Definition rename_key : row := {[ "key_name" := VInt 42 ]}.

(** A name of 105 characters, the last hundred of them spaces, and what is
    left of it in a VARCHAR(100) column. *)
Definition padded_name : string := "boost" +:+ join (replicate 100 " ").
Definition cut_name : string := "boost" +:+ join (replicate 95 " ").

Definition padded_rule : row :=
  rule_values padded_name "engagement_based"
    (JObj [("b", JNum 1); ("a", JNum 2); ("b", JNum 3)]) "like" (JObj []) (JArr []).

(** [WHERE id = ...]. *)
Definition has_id (u : string) (r : row) : bool :=
  same_key (value_of r "id") (VUuid u).

(** A session of an ordinary role with [app.current_tenant] set. *)
Definition acme_session : session := Session false (Some "acme").

End Fixtures.

(* ===================================================================== *)
(** ** Facts about the schema                                              *)
(* ===================================================================== *)

Section SchemaFacts.
Import Schema Samples.

(** Close an equation between closed terms by evaluating both sides. *)
Ltac evaluate :=
  lazymatch goal with
  | |- ?a = ?b => vm_cast_no_check (@eq_refl _ b)
  end.

Lemma value_of_insert (r : row) (c c' : string) (v : sql_value) :
  value_of (<[c := v]> r) c' = if decide (c = c') then v else value_of r c'.
Proof.
  unfold value_of. rewrite lookup_insert. by case_decide.
Qed.

(** Overwriting one column keeps a row valid when the new value satisfies
    the constraints of that column. *)
Lemma row_ok_insert (t : table) (r : row) (c : string) (v : sql_value) :
  (∀ k, k ∈ tbl_columns t → col_name k = c → column_ok k v = true) →
  row_ok t r = true →
  row_ok t (<[c := v]> r) = true.
Proof.
  unfold row_ok. rewrite !forallb_forall. intros Hc Hr k Hk.
  rewrite value_of_insert. case_decide as Hn.
  - apply Hc; [by apply list_elem_of_In | done].
  - by apply Hr.
Qed.

Lemma row_ok_column (t : table) (r : row) (k : column) :
  row_ok t r = true → k ∈ tbl_columns t →
  column_ok k (value_of r (col_name k)) = true.
Proof.
  unfold row_ok. rewrite forallb_forall. intros Hr Hk.
  by apply Hr, list_elem_of_In.
Qed.

Lemma known_columns_singleton (t : table) (c : string) (v : sql_value) :
  known_columns t {[c := v]} = has_column t c.
Proof.
  unfold known_columns. rewrite map_to_list_singleton. simpl.
  by rewrite andb_true_r.
Qed.

(** Running the timestamp trigger any positive number of times leaves
    [updated_at] at NOW(). *)
Lemma fire_triggers_stamp (gs : list trigger) (t : table) (now : Z) (NEW : row) :
  gs ≠ [] → has_column t "updated_at" = true →
  fire_triggers gs t now NEW = Some (<["updated_at" := VTime now]> NEW).
Proof.
  intros Hgs Hcol. destruct gs as [|g gs]; [done|]. clear Hgs.
  revert g NEW. induction gs as [|g' gs IH]; intros g NEW.
  - simpl. unfold update_updated_at_column. by rewrite Hcol.
  - change (fire_triggers (g :: g' :: gs) t now NEW)
      with (match update_updated_at_column t now NEW with
            | Some NEW' => fire_triggers (g' :: gs) t now NEW'
            | None => None
            end).
    unfold update_updated_at_column at 1. rewrite Hcol.
    rewrite IH. by rewrite insert_insert_eq.
Qed.

Lemma timestamped_trigger (t : table) :
  t ∈ timestamped_tables →
  triggers_on t ≠ [] ∧ has_column t "updated_at" = true.
Proof.
  unfold timestamped_tables. rewrite !elem_of_cons, elem_of_nil.
  intros [->|[->|[->|[->|[->|[->|[]]]]]]]; split; by vm_compute.
Qed.

Lemma before_update_timestamped (t : table) (now : Z) (NEW : row) :
  t ∈ timestamped_tables →
  before_update t now NEW = Some (<["updated_at" := VTime now]> NEW).
Proof.
  intros [Hg Hc]%timestamped_trigger. by apply fire_triggers_stamp.
Qed.

(** C10: on each of tenants, users, social_accounts, content_templates,
    scheduled_posts and automation_rules, the BEFORE UPDATE trigger rewrites
    NEW so that [updated_at] is NOW(), whatever the SET list assigns (even
    [updated_at] itself); the row an UPDATE stores carries that timestamp
    and otherwise the values of the SET list over the old row. *)
Theorem update_sets_updated_at (t : table) (now : Z) (OLD assignments : row) :
  t ∈ timestamped_tables →
  before_update t now (assignments ∪ OLD)
    = Some (<["updated_at" := VTime now]> (assignments ∪ OLD))
  ∧ ∀ NEW, sql_update t now OLD assignments = Some NEW →
      NEW !! "updated_at" = Some (VTime now)
      ∧ ∀ c, c ≠ "updated_at" → NEW !! c = (assignments ∪ OLD) !! c.
Proof.
  intros Ht. split; [by apply before_update_timestamped|].
  intros NEW. unfold sql_update.
  rewrite (before_update_timestamped _ _ _ Ht).
  destruct (known_columns t assignments); [|done].
  destruct (row_ok t _); [|done].
  intros [= <-]. split.
  - apply lookup_insert_eq.
  - intros c Hc. by rewrite lookup_insert_ne.
Qed.

Lemma update_sets_updated_at_witness :
  scheduled_posts ∈ timestamped_tables
  ∧ sample_post !! "updated_at" = Some (VTime 1000)
  ∧ ∃ NEW,
      sql_update scheduled_posts 2000 sample_post retitle = Some NEW
      ∧ NEW !! "updated_at" = Some (VTime 2000).
Proof.
  assert (Hin : scheduled_posts ∈ timestamped_tables)
    by (unfold timestamped_tables; rewrite !elem_of_cons; auto 10).
  split; [exact Hin|]. split; [evaluate|].
  assert (E : sql_update scheduled_posts 2000 sample_post retitle
              = Some (<["updated_at" := VTime 2000]> (retitle ∪ sample_post)))
    by evaluate.
  eexists. split; [exact E|].
  exact (proj1 (proj2 (update_sets_updated_at _ _ _ _ Hin) _ E)).
Defined.

(** A table without the trigger, [api_keys], is stored as the UPDATE left
    it. *)
Example api_keys_not_stamped (now : Z) (NEW : row) :
  before_update api_keys now NEW = Some NEW.
Proof. reflexivity. Qed.

Lemma status_column_ok (k : column) (v : sql_value) :
  k ∈ tbl_columns scheduled_posts → col_name k = "status" →
  column_ok k v = true ↔ status_admitted v.
Proof.
  intros Hk Hn. cbn in Hk.
  repeat (apply elem_of_cons in Hk as [->|Hk]); try discriminate Hn;
    [|by apply elem_of_nil in Hk].
  unfold status_admitted. split.
  - destruct v; try discriminate; [by left|].
    intros [[_ _]%andb_prop Hin]%andb_prop. right. exists s. split; [done|].
    cbn in Hin. by apply bool_decide_eq_true in Hin.
  - intros [->|(s & -> & Hs)]; [done|].
    repeat (apply elem_of_cons in Hs as [->|Hs]); try by vm_compute.
    by apply elem_of_nil in Hs.
Qed.

Lemma stamp_column_ok (t : table) (now : Z) (k : column) :
  t ∈ timestamped_tables →
  k ∈ tbl_columns t → col_name k = "updated_at" →
  column_ok k (VTime now) = true.
Proof.
  unfold timestamped_tables. rewrite !elem_of_cons, elem_of_nil.
  intros [->|[->|[->|[->|[->|[->|[]]]]]]] Hk Hn; cbn in Hk;
    repeat (apply elem_of_cons in Hk as [->|Hk]); try discriminate Hn;
    try reflexivity; by apply elem_of_nil in Hk.
Qed.

Lemma scheduled_posts_timestamped : scheduled_posts ∈ timestamped_tables.
Proof. unfold timestamped_tables. rewrite !elem_of_cons. auto 10. Qed.

(** C1 (counterexample): the state machine passes through [publishing],
    but the CHECK on [scheduled_posts.status] lists only scheduled,
    published, failed and cancelled, so the UPDATE that would claim a
    scheduled post is refused; and an UPDATE that takes a cancelled post to
    published, which is no edge of the state machine, is accepted. *)
Lemma status_machine_counterexample :
  row_ok scheduled_posts sample_post = true
  ∧ value_of sample_post "status" = VString (Core.status_name Core.scheduled)
  ∧ Core.spec_transition Core.scheduled Core.publishing = true
  ∧ sql_update scheduled_posts 2000 sample_post
      {[ "status" := VString (Core.status_name Core.publishing) ]} = None
  ∧ row_ok scheduled_posts cancelled_post = true
  ∧ value_of cancelled_post "status" = VString (Core.status_name Core.cancelled)
  ∧ Core.spec_transition Core.cancelled Core.published = false
  ∧ (sql_update scheduled_posts 2000 cancelled_post
       {[ "status" := VString (Core.status_name Core.published) ]}
     ≫= (.!! "status")) = Some (VString "published").
Proof. repeat split; evaluate. Qed.

(** C1 (amended): an UPDATE of the status of a stored scheduled post is
    accepted exactly when the new value is NULL or one of scheduled,
    published, failed, cancelled, whatever the status was before; the
    accepted value is what the row then holds; and a post inserted without
    a status starts as scheduled. *)
Theorem scheduled_posts_status_domain (now : Z) (OLD : row) (v : sql_value) :
  row_ok scheduled_posts OLD = true →
  (is_Some (sql_update scheduled_posts now OLD {[ "status" := v ]})
     ↔ status_admitted v)
  ∧ (∀ NEW, sql_update scheduled_posts now OLD {[ "status" := v ]} = Some NEW →
       NEW !! "status" = Some v)
  ∧ (∀ e vals r, vals !! "status" = None →
       sql_insert scheduled_posts e vals = Some r →
       r !! "status" = Some (VString "scheduled")).
Proof.
  intros HOLD.
  assert (Hk : Column "status" (VARCHAR 20) false
                 (Some (Lit (VString "scheduled"))) (Some post_statuses)
               ∈ tbl_columns scheduled_posts)
    by (cbn; rewrite !elem_of_cons; auto 20).
  unfold sql_update. rewrite known_columns_singleton.
  replace (has_column scheduled_posts "status") with true by (by vm_compute).
  rewrite (before_update_timestamped _ _ _ scheduled_posts_timestamped).
  rewrite <- insert_union_singleton_l.
  split; [|split].
  - split.
    + destruct (row_ok scheduled_posts (<["updated_at" := _]> _)) eqn:Hok;
        [intros _|by intros [? ?]].
      pose proof (row_ok_column _ _ _ Hok Hk) as Hc. cbn [col_name] in Hc.
      rewrite value_of_insert in Hc. case_decide; [done|].
      rewrite value_of_insert in Hc. case_decide; [|done].
      by apply (status_column_ok _ _ Hk).
    + intros Hv. rewrite row_ok_insert; [done| |].
      * intros k Hin Hn.
        by apply (stamp_column_ok _ _ _ scheduled_posts_timestamped).
      * apply row_ok_insert; [|done].
        intros k Hin Hn. by apply status_column_ok.
  - intros NEW. destruct (row_ok scheduled_posts (<["updated_at" := _]> _)); [|done].
    intros [= <-]. rewrite lookup_insert_ne by done. apply lookup_insert_eq.
  - intros e vals r Hnone. unfold sql_insert.
    destruct (known_columns _ _); [|done].
    destruct (row_ok _ (new_row _ _ _)); [|done]. intros [= <-].
    unfold new_row. cbn [fmap list_fmap tbl_columns scheduled_posts list_to_map foldr
                         col_name PRIMARY_KEY NOT_NULL DEFAULT CHECK_IN col curry fst snd].
    do 8 (rewrite lookup_insert_ne by done). rewrite lookup_insert_eq.
    unfold insert_value. cbn. by rewrite Hnone.
Qed.

Lemma scheduled_posts_status_domain_witness :
  row_ok scheduled_posts sample_post = true
  ∧ is_Some (sql_update scheduled_posts 2000 sample_post
               {[ "status" := VString "failed" ]})
  ∧ ¬ is_Some (sql_update scheduled_posts 2000 sample_post
                 {[ "status" := VString "publishing" ]}).
Proof.
  assert (Hok : row_ok scheduled_posts sample_post = true) by evaluate.
  split; [exact Hok|]. split.
  - apply (proj1 (scheduled_posts_status_domain 2000 sample_post _ Hok)).
    right. exists "failed". split; [reflexivity|].
    unfold post_statuses. rewrite !elem_of_cons. auto.
  - intros H.
    apply (proj1 (scheduled_posts_status_domain 2000 sample_post _ Hok)) in H.
    destruct H as [H|(s & [= <-] & Hs)]; [discriminate|].
    unfold post_statuses in Hs. rewrite !elem_of_cons, elem_of_nil in Hs.
    destruct Hs as [Hs|[Hs|[Hs|[Hs|[]]]]]; discriminate Hs.
Defined.

Lemma new_row_lookup (t : table) (e : env) (vals : row) (k : column) :
  NoDup (column_names t) → k ∈ tbl_columns t →
  new_row t e vals !! col_name k = Some (insert_value e vals k).
Proof.
  intros Hnd Hk. unfold new_row. apply elem_of_list_to_map.
  - by rewrite <- list_fmap_compose.
  - apply list_elem_of_fmap. by exists k.
Qed.

Lemma forallb_agree {A : Type} (f g : A → bool) (l : list A) :
  (∀ x, x ∈ l → f x = g x) → forallb f l = forallb g l.
Proof.
  induction l as [|a l IH]; intros H; [done|]. simpl.
  rewrite (H a) by left. rewrite IH; [done|]. intros x Hx. apply H. by right.
Qed.

Lemma row_ok_new_row (t : table) (e : env) (vals : row) :
  NoDup (column_names t) →
  row_ok t (new_row t e vals)
  = forallb (fun k => column_ok k (insert_value e vals k)) (tbl_columns t).
Proof.
  intros Hnd. unfold row_ok. apply forallb_agree. intros k Hk.
  unfold value_of. by rewrite new_row_lookup.
Qed.

Lemma automation_rules_columns_distinct : NoDup (column_names automation_rules).
Proof. apply (bool_decide_unpack _). by vm_compute. Qed.

(** C6 (counterexample): a rule inserted with the JSON value null as its
    trigger configuration, which holds no metric and no threshold, is
    accepted and stored with [is_active] true. *)
Lemma malformed_rule_active_counterexample :
  Core.decode_trigger "engagement_based" JNull = None
  ∧ (sql_insert automation_rules (Env 1000 "r1")
       (rule_values "boost" "engagement_based" JNull "like" (JObj []) (JArr []))
     ≫= (.!! "is_active")) = Some (VBool true).
Proof. split; evaluate. Qed.

End SchemaFacts.

(* ===================================================================== *)
(** ** Facts about the account-manager page                                *)
(* ===================================================================== *)

Section AccountManagerFacts.
Import AccountManager.

(** C9: when the DELETE request is answered, whatever the HTTP status of
    the answer, [deleteUser] sets the list to the displayed list without
    the entries whose id is strictly equal to the given id: no such entry
    is left, every other entry stays, and the result is the same for
    every status. *)
Theorem deleteUser_removes_on_any_status (users : list user) (id0 : js_value)
    (http_status : nat) (current : list user) :
  let users' := deleteUser users id0 (Fulfilled http_status) current in
  users' = List.filter (fun u => strict_ne (id u) id0) users
  ∧ (∀ u, u ∈ users' ↔ u ∈ users ∧ strict_eq (id u) id0 = false)
  ∧ (∀ other_status,
       deleteUser users id0 (Fulfilled other_status) current = users').
Proof.
  cbn. split; [done|]. split; [|done].
  intros u. rewrite !list_elem_of_In, filter_In. unfold strict_ne.
  by rewrite negb_true_iff.
Qed.

(** A server-side failure: the list had users 1, 2 and 3, the server
    answers 500 to the deletion of user 2, and the list shows 1 and 3. *)
Example deleteUser_after_500 :
  let u n := User (Number n) (Str "name") (Str "nick") (Str "twitter") in
  deleteUser [u 1; u 2; u 3] (Number 2) (Fulfilled 500) [u 1; u 2; u 3]
  = [u 1; u 3].
Proof. reflexivity. Qed.

(** When no response arrives the callback does not run. *)
Lemma deleteUser_rejected (users : list user) (id0 : js_value)
    (current : list user) :
  deleteUser users id0 Rejected current = current.
Proof. reflexivity. Qed.

End AccountManagerFacts.

(* ===================================================================== *)
(** ** Facts about the dispatch core                                       *)
(* ===================================================================== *)

Section RegistryFacts.
Import Core.


End RegistryFacts.

Section LedgerFacts.
Import Core.
Context (max_attempts : nat) (lease : Z) (platform : nat → reply).














End LedgerFacts.

Section SchedulerFacts.
Import Core.
Context (max_attempts : nat) (lease : Z) (platform : nat → reply).













(** Which posts a pass selects. *)
Lemma selectable_cases (now : Z) (p : ScheduledPost) :
  selectable lease now p = true ↔
  (sp_status p = scheduled ∧ sp_scheduled_time p ≤ now)
  ∨ (sp_status p = publishing
     ∧ ∃ t, sp_claimed_at p = Some t ∧ t + lease ≤ now).
Proof.
  unfold selectable. destruct (sp_status p).
  - rewrite bool_decide_eq_true. split; [by left|].
    intros [[_ H]|[H _]]; [done|discriminate H].
  - destruct (sp_claimed_at p) as [t|].
    + rewrite bool_decide_eq_true. split; [right; eauto|].
      intros [[H _]|[_ (t' & [= <-] & H)]]; [discriminate H|done].
    + split; [discriminate|].
      intros [[H _]|[_ (t' & H & _)]]; discriminate H.
  - split; [discriminate|]. intros [[H _]|[H _]]; discriminate H.
  - split; [discriminate|]. intros [[H _]|[H _]]; discriminate H.
  - split; [discriminate|]. intros [[H _]|[H _]]; discriminate H.
Qed.





End SchedulerFacts.


(** The scenario of the design document: account A succeeds, account B is
    rejected by its platform; the post ends failed, the ledger holds the
    two attempts, and the error detail names B's platform and the reason. *)
Example two_accounts_one_rejected :
  Core.process_post 5 100 Samples.first_ok_then_rejected 20
    Samples.two_target_post (Core.Journal [] 0)
  = (Core.Post (Core.Authored "p") [Samples.account_a; Samples.account_b]
       "hello" 10 Core.failed (Some "facebook: policy") None (Some 20),
     Core.Journal
       [Core.Attempt (Core.FromPost (Core.Authored "p")) "A" (Core.Success "r1") 20 1;
        Core.Attempt (Core.FromPost (Core.Authored "p")) "B"
          (Core.Failure (Core.FPlatformRejected "policy")) 20 1]
       2).
Proof. reflexivity. Qed.


Section ClaimFacts.
Import Core.
Context (lease : Z) {W : Type}.




End ClaimFacts.


Section RuleFacts.
Import Core.
Context (platform : nat → reply).





End RuleFacts.


(* ===================================================================== *)
(** ** Facts about the other handlers of the pages                         *)
(* ===================================================================== *)

Section PagesFacts.
Import AccountManager Pages.

Lemma strict_eq_true (a b : js_value) : strict_eq a b = true ↔ a = b.
Proof.
  destruct a, b; cbn; rewrite ?bool_decide_eq_true;
    split; intros H; try discriminate H; try done; try (by f_equal); by injection H.
Qed.

Lemma strict_ne_true (a b : js_value) : strict_ne a b = true ↔ a ≠ b.
Proof.
  unfold strict_ne. rewrite negb_true_iff, <- not_true_iff_false.
  by rewrite strict_eq_true.
Qed.

(** What [xs.filter(x => x.id !== id)] keeps, for any kind of entry. *)
Lemma elem_of_filter_ne {A : Type} (key : A → js_value) (id0 : js_value)
    (l : list A) (x : A) :
  x ∈ List.filter (fun y => strict_ne (key y) id0) l ↔ x ∈ l ∧ key x ≠ id0.
Proof. by rewrite !list_elem_of_In, filter_In, strict_ne_true. Qed.

Lemma filter_ne_id {A : Type} (key : A → js_value) (id0 : js_value) (l : list A) :
  List.filter (fun y => strict_ne (key y) id0) l = l ↔ ∀ x, x ∈ l → key x ≠ id0.
Proof.
  induction l as [|a l IH]; cbn.
  - split; [intros _ x Hx; by apply elem_of_nil in Hx|done].
  - destruct (strict_ne (key a) id0) eqn:E.
    + split.
      * intros [= H]. intros x [->|Hx]%elem_of_cons.
        -- by apply strict_ne_true.
        -- by apply IH.
      * intros H. f_equal. apply IH. intros x Hx. apply H. by right.
    + split.
      * intros H. exfalso.
        assert (Hl : (length (List.filter (fun y => strict_ne (key y) id0) l)
                      ≤ length l)%nat) by apply List.filter_length_le.
        rewrite H in Hl. cbn in Hl. lia.
      * intros H. exfalso.
        assert (Ha : strict_ne (key a) id0 = true)
          by (apply strict_ne_true, H; by left).
        rewrite Ha in E. discriminate E.
Qed.

Lemma filter_ne_sublist {A : Type} (key : A → js_value) (id0 : js_value)
    (l : list A) :
  sublist (List.filter (fun y => strict_ne (key y) id0) l) l.
Proof.
  induction l as [|a l IH]; cbn; [done|].
  destruct (strict_ne (key a) id0); by constructor.
Qed.

Lemma filter_ne_comm {A : Type} (key : A → js_value) (a b : js_value) (l : list A) :
  List.filter (fun y => strict_ne (key y) b)
    (List.filter (fun y => strict_ne (key y) a) l)
  = List.filter (fun y => strict_ne (key y) a)
      (List.filter (fun y => strict_ne (key y) b) l).
Proof.
  induction l as [|x l IH]; [done|]. cbn.
  destruct (strict_ne (key x) a) eqn:Ea, (strict_ne (key x) b) eqn:Eb;
    cbn; rewrite ?Ea, ?Eb, IH; done.
Qed.

(** X1: two deletions started from the same rendering: when the second
    answer arrives, the list is set to the displayed list without the
    second id only, so the entries the first deletion had removed are back
    in the list. *)
Theorem deleteUser_stale_closure (shown : list user) (a b : js_value)
    (s1 s2 : nat) (current : list user) :
  a ≠ b →
  let after_first := deleteUser shown a (Fulfilled s1) current in
  let after_second := deleteUser shown b (Fulfilled s2) after_first in
  after_second = List.filter (fun u => strict_ne (id u) b) shown
  ∧ ∀ u, u ∈ shown → id u = a → (u ∉ after_first) ∧ u ∈ after_second.
Proof.
  intros Hab. cbn. split; [done|]. intros u Hu Ha.
  rewrite !elem_of_filter_ne. split; [intros [_ H]; by apply H|].
  split; [done|]. by rewrite Ha.
Qed.

Lemma deleteUser_stale_closure_witness :
  deleteUser [Fixtures.alice; Fixtures.bob; Fixtures.carol] (Number 2) (Fulfilled 200)
    (deleteUser [Fixtures.alice; Fixtures.bob; Fixtures.carol] (Number 1)
       (Fulfilled 200) [Fixtures.alice; Fixtures.bob; Fixtures.carol])
  = [Fixtures.alice; Fixtures.carol].
Proof.
  rewrite (proj1 (deleteUser_stale_closure
                    [Fixtures.alice; Fixtures.bob; Fixtures.carol]
                    (Number 1) (Number 2) 200 200
                    [Fixtures.alice; Fixtures.bob; Fixtures.carol]
                    ltac:(discriminate))).
  reflexivity.
Defined.

(** X2: two deletions one after the other, the second started from the
    list the first one left: the result holds exactly the displayed entries
    with neither id, and it is the same in whichever order the two were
    made and whatever the HTTP statuses were. *)
Theorem deleteUser_in_turn (shown : list user) (a b : js_value)
    (s1 s2 s3 s4 : nat) (c1 c2 c3 c4 : list user) :
  let ab := deleteUser (deleteUser shown a (Fulfilled s1) c1) b (Fulfilled s2) c2 in
  let ba := deleteUser (deleteUser shown b (Fulfilled s3) c3) a (Fulfilled s4) c4 in
  ab = ba ∧ ∀ u, u ∈ ab ↔ u ∈ shown ∧ id u ≠ a ∧ id u ≠ b.
Proof.
  cbn. split; [apply filter_ne_comm|].
  intros u. rewrite !elem_of_filter_ne. tauto.
Qed.

(** X3: [deleteUser] keeps the remaining entries in their order and adds
    none; it leaves the list as it was exactly when no entry has the id;
    repeating it changes nothing more; and, [!==] being strict, an id given
    as a string removes no entry whose id is a number. *)
Theorem deleteUser_keeps_order (shown : list user) (id0 : js_value)
    (status : nat) (current : list user) :
  let left := deleteUser shown id0 (Fulfilled status) current in
  sublist left shown
  ∧ (left = shown ↔ ∀ u, u ∈ shown → id u ≠ id0)
  ∧ (∀ status' c, deleteUser left id0 (Fulfilled status') c = left)
  ∧ (∀ u text n, id0 = Str text → u ∈ shown → id u = Number n → u ∈ left).
Proof.
  cbn. split; [apply filter_ne_sublist|]. split; [apply filter_ne_id|]. split.
  - intros _ _. apply filter_ne_id. intros u Hu.
    by apply elem_of_filter_ne in Hu as [_ Hu].
  - intros u text n -> Hu Hn. apply elem_of_filter_ne. split; [done|].
    by rewrite Hn.
Qed.

(** X4: [addUser] appends the parsed answer and empties the form whatever
    the HTTP status; when no displayed entry shares the id of the new one,
    deleting that id afterwards gives back the list as it was before. *)
Theorem addUser_then_deleteUser (seen : account_page) (u : user)
    (s1 s2 : nat) (c1 : account_page) (c2 : list user) :
  (∀ v, v ∈ users seen → id v ≠ id u) →
  let added := addUser seen (Parsed s1 u) c1 in
  users added = users seen ++ [u]
  ∧ newUser added = empty_form
  ∧ deleteUser (users added) (id u) (Fulfilled s2) c2 = users seen.
Proof.
  intros Hfresh. cbn. split; [done|]. split; [done|].
  rewrite List.filter_app. cbn.
  replace (strict_ne (id u) (id u)) with false
    by (symmetry; apply not_true_iff_false; rewrite strict_ne_true;
        intros H; by apply H).
  rewrite app_nil_r. by apply filter_ne_id.
Qed.

Lemma addUser_then_deleteUser_witness :
  deleteUser
    (users (addUser (AccountPage [Fixtures.alice; Fixtures.bob] (Form "carol" "Ca" "tiktok"))
              (Parsed 201 Fixtures.carol) (AccountPage [] empty_form)))
    (Number 3) (Fulfilled 500) []
  = [Fixtures.alice; Fixtures.bob].
Proof.
  apply (addUser_then_deleteUser
           (AccountPage [Fixtures.alice; Fixtures.bob] (Form "carol" "Ca" "tiktok"))
           Fixtures.carol 201 500 (AccountPage [] empty_form) []).
  intros v Hv. cbn in Hv.
  apply elem_of_cons in Hv as [->|Hv]; [discriminate|].
  apply elem_of_cons in Hv as [->|Hv]; [discriminate|].
  by apply elem_of_nil in Hv.
Defined.

(** X5: two additions started from the same rendering: the second answer
    sets the list to the captured list plus its own entry, so the entry
    the first answer had appended is gone from the page. *)
Theorem addUser_stale_closure (seen : account_page) (u1 u2 : user)
    (s1 s2 : nat) (current : account_page) :
  let after_first := addUser seen (Parsed s1 u1) current in
  let after_second := addUser seen (Parsed s2 u2) after_first in
  u1 ∈ users after_first
  ∧ users after_second = users seen ++ [u2]
  ∧ (u1 ∉ users seen → u1 ≠ u2 → u1 ∉ users after_second).
Proof.
  cbn. split; [apply elem_of_app; right; by left|]. split; [done|].
  intros H1 H2 [H|H]%elem_of_app; [done|].
  apply elem_of_cons in H as [->|H]; [done|]. by apply elem_of_nil in H.
Qed.

(** X6: [deleteKey] drops the key from the displayed list as soon as the
    DELETE request is answered, whatever the HTTP status: a key the server
    refused to delete disappears from the page all the same; the other
    keys stay, in their order. *)
Theorem deleteKey_removes_on_any_status (keys : list APIKeyManager.key)
    (id0 : js_value) (status : nat) (current : list APIKeyManager.key) :
  let left := APIKeyManager.deleteKey keys id0 (Fulfilled status) current in
  (∀ k, k ∈ left ↔ k ∈ keys ∧ APIKeyManager.id k ≠ id0)
  ∧ sublist left keys
  ∧ (∀ other, APIKeyManager.deleteKey keys id0 (Fulfilled other) current = left)
  ∧ APIKeyManager.deleteKey keys id0 Rejected current = current.
Proof.
  cbn. split; [intros k; apply elem_of_filter_ne|].
  split; [apply filter_ne_sublist|done].
Qed.

(** X24: a key whose creation is answered while a deletion started from
    the same rendering is still pending is lost from the page when the
    deletion is answered, whichever id was deleted: the deletion sets the
    list to the captured list without the deleted id, and the new key was
    never in the captured list. *)
Theorem deleteKey_drops_created_key (keys : list APIKeyManager.key)
    (k : APIKeyManager.key) (id0 : js_value) (s1 s2 : nat)
    (current : list APIKeyManager.key * string) :
  k ∉ keys →
  let created := APIKeyManager.createKey keys (Parsed s1 k) current in
  let after := APIKeyManager.deleteKey keys id0 (Fulfilled s2) created.1 in
  k ∈ created.1 ∧ created.2 = "" ∧ k ∉ after.
Proof.
  intros Hk. cbn. split; [apply elem_of_app; right; by left|].
  split; [done|]. intros H. by apply elem_of_filter_ne in H as [H _].
Qed.

Lemma deleteKey_drops_created_key_witness :
  Fixtures.key_two
    ∈ (APIKeyManager.createKey [Fixtures.key_one] (Parsed 201 Fixtures.key_two)
         ([Fixtures.key_one], "bot")).1
  ∧ (APIKeyManager.createKey [Fixtures.key_one] (Parsed 201 Fixtures.key_two)
       ([Fixtures.key_one], "bot")).2 = ""
  ∧ Fixtures.key_two
    ∉ APIKeyManager.deleteKey [Fixtures.key_one] (Str "k1") (Fulfilled 200)
        (APIKeyManager.createKey [Fixtures.key_one] (Parsed 201 Fixtures.key_two)
           ([Fixtures.key_one], "bot")).1.
Proof.
  apply (deleteKey_drops_created_key [Fixtures.key_one] Fixtures.key_two
           (Str "k1") 201 200 ([Fixtures.key_one], "bot")).
  intros H. apply elem_of_cons in H as [H|H]; [discriminate H|].
  by apply elem_of_nil in H.
Defined.

(** X7: [deleteWebhook] drops the webhook from the displayed list as soon
    as the DELETE request is answered, whatever the HTTP status; the other
    webhooks stay, in their order. *)
Theorem deleteWebhook_removes_on_any_status (hooks : list WebhookManager.webhook)
    (id0 : js_value) (status : nat) (current : list WebhookManager.webhook) :
  let left := WebhookManager.deleteWebhook hooks id0 (Fulfilled status) current in
  (∀ w, w ∈ left ↔ w ∈ hooks ∧ WebhookManager.id w ≠ id0)
  ∧ sublist left hooks
  ∧ (∀ other, WebhookManager.deleteWebhook hooks id0 (Fulfilled other) current = left)
  ∧ WebhookManager.deleteWebhook hooks id0 Rejected current = current.
Proof.
  cbn. split; [intros w; apply elem_of_filter_ne|].
  split; [apply filter_ne_sublist|done].
Qed.

(** X8: after the profile request the developer page shows its menu
    exactly when the answer parsed to an object whose role is the string
    developer (whatever the HTTP status); it sends the visitor to /403
    exactly when the answer parsed to an object with any other role; and
    when the request fails, or its body is not JSON or is null, the page
    stays on its loading text without a redirect. *)
Theorem developer_gate (res : answer DeveloperPlatform.profile) :
  let s := DeveloperPlatform.on_profile res DeveloperPlatform.initial in
  (DeveloperPlatform.render s = DeveloperPlatform.Menu
     ↔ ∃ status, res = Parsed status (DeveloperPlatform.Profile (Str "developer")))
  ∧ (DeveloperPlatform.replaced s = Some "/403"
     ↔ ∃ status role, res = Parsed status (DeveloperPlatform.Profile role)
                      ∧ role ≠ Str "developer")
  ∧ ((∀ status role, res ≠ Parsed status (DeveloperPlatform.Profile role))
     → s = DeveloperPlatform.initial).
Proof.
  destruct res as [status [role|]|status|]; cbn.
  - destruct (strict_eq role (Str "developer")) eqn:E; cbn.
    + apply strict_eq_true in E as ->. split; [|split].
      * split; [eauto|done].
      * split; [discriminate|].
        intros (st & ro & [= _ <-] & Hne). by destruct Hne.
      * intros Hno. by destruct (Hno status (Str "developer")).
    + assert (Hne : role ≠ Str "developer")
        by (intros Hr%strict_eq_true; rewrite Hr in E; discriminate E).
      split; [|split].
      * split; [discriminate|]. intros (st & [= _ Hr]). by destruct Hne.
      * split; [eauto|done].
      * intros Hno. by destruct (Hno status role).
  - split; [|split].
    + split; [discriminate|]. intros (st & [=]).
    + split; [discriminate|]. intros (st & ro & [=] & _).
    + done.
  - split; [|split].
    + split; [discriminate|]. intros (st & [=]).
    + split; [discriminate|]. intros (st & ro & [=] & _).
    + done.
  - split; [|split].
    + split; [discriminate|]. intros (st & [=]).
    + split; [discriminate|]. intros (st & ro & [=] & _).
    + done.
Qed.

(** X9: the CHECK on [users.role] admits admin, user and viewer only, and
    the developer page asks for the role developer: a profile that carries
    the role of a stored row of [users] is sent to /403 and never sees the
    menu. *)
Theorem stored_roles_are_redirected (r : gmap string Schema.sql_value) (status : nat) :
  Schema.row_ok Schema.users r = true →
  DeveloperPlatform.on_profile
    (Parsed status (DeveloperPlatform.Profile (DeveloperPlatform.stored_role r)))
    DeveloperPlatform.initial
  = DeveloperPlatform.State false (Some "/403").
Proof.
  intros Hok.
  assert (Hk : Schema.CHECK_IN ["admin"; "user"; "viewer"]
                 (Schema.DEFAULT (Schema.Lit (Schema.VString "user"))
                    (Schema.col "role" (Schema.VARCHAR 20)))
               ∈ Schema.tbl_columns Schema.users)
    by (cbn; rewrite !elem_of_cons; auto 20).
  pose proof (row_ok_column _ _ _ Hok Hk) as Hc. cbn in Hc.
  unfold DeveloperPlatform.stored_role.
  destruct (Schema.value_of r "role") as [| |s| | | | |]; try done.
  apply andb_prop in Hc as [_ Hc]. apply bool_decide_eq_true in Hc.
  repeat (apply elem_of_cons in Hc as [->|Hc]); try done.
  by apply elem_of_nil in Hc.
Qed.

Lemma stored_roles_are_redirected_witness :
  DeveloperPlatform.stored_role Fixtures.user_row = Str "user"
  ∧ DeveloperPlatform.on_profile
      (Parsed 200 (DeveloperPlatform.Profile
                     (DeveloperPlatform.stored_role Fixtures.user_row)))
      DeveloperPlatform.initial
    = DeveloperPlatform.State false (Some "/403").
Proof.
  split; [vm_cast_no_check (@eq_refl _ (Str "user"))|].
  apply stored_roles_are_redirected.
  vm_cast_no_check (@eq_refl _ true).
Defined.

(** X10: [handleImport] sends nothing and reports nothing when no file is
    chosen; with a file it posts the file once, and it announces that the
    import is finished exactly when the request was answered, whatever the
    HTTP status of the answer. *)
Theorem handleImport_alerts_on_any_status (file : option string) (res : settled) :
  let done := AccountImportExport.handleImport file res in
  (file = None → done = [])
  ∧ (∀ f, file = Some f →
       ∃ rest, done = AccountImportExport.PostFile "/api/accounts/import" f :: rest
               ∧ (rest = [AccountImportExport.Alert] ∨ rest = []))
  ∧ (AccountImportExport.Alert ∈ done
     ↔ (∃ f, file = Some f) ∧ ∃ status, res = Fulfilled status).
Proof.
  destruct file as [f|], res as [status|]; cbn.
  - split; [discriminate|]. split.
    + intros f0 [= <-]. eauto.
    + split; [eauto|]. intros _. apply elem_of_cons. right. by left.
  - split; [discriminate|]. split.
    + intros f0 [= <-]. eauto.
    + split; [|by intros [_ (st & [=])]].
      intros [H|H]%elem_of_cons; [discriminate H|by apply elem_of_nil in H].
  - split; [done|]. split; [by intros f0 [=]|].
    split; [intros H; by apply elem_of_nil in H|by intros [(f & [=]) _]].
  - split; [done|]. split; [by intros f0 [=]|].
    split; [intros H; by apply elem_of_nil in H|by intros [(f & [=]) _]].
Qed.

(** X11: [handleExport] saves the body of the answer under the name
    accounts.csv whenever a body could be read, whatever the HTTP status of
    the answer, and then releases the object URL; when no body could be
    read it saves nothing. *)
Theorem handleExport_saves_on_any_status (res : answer string) :
  let done := AccountImportExport.handleExport res in
  (∀ blob, AccountImportExport.SaveAs "accounts.csv" blob ∈ done
           ↔ ∃ status, res = Parsed status blob)
  ∧ (∀ name blob, AccountImportExport.SaveAs name blob ∈ done → name = "accounts.csv")
  ∧ (∀ status blob, res = Parsed status blob →
       done = [AccountImportExport.Get "/api/accounts/export";
               AccountImportExport.SaveAs "accounts.csv" blob;
               AccountImportExport.Revoke]).
Proof.
  destruct res as [status body|status|];
    unfold AccountImportExport.handleExport; cbv zeta iota beta.
  - split; [|split].
    + intros blob. rewrite !elem_of_cons, elem_of_nil. split.
      * intros [H|[[= ->]|[H|[]]]]; try discriminate H. eauto.
      * intros (st & [= _ ->]). auto.
    + intros nm blob. rewrite !elem_of_cons, elem_of_nil.
      intros [H|[[= -> _]|[H|[]]]]; try discriminate H. done.
    + by intros st blob [= _ ->].
  - split; [|split].
    + intros blob. rewrite !elem_of_cons, elem_of_nil. split.
      * intros [H|[]]. discriminate H.
      * intros (st & [=]).
    + intros nm blob. rewrite !elem_of_cons, elem_of_nil.
      intros [H|[]]. discriminate H.
    + by intros st blob [=].
  - split; [|split].
    + intros blob. rewrite !elem_of_cons, elem_of_nil. split.
      * intros [H|[]]. discriminate H.
      * intros (st & [=]).
    + intros nm blob. rewrite !elem_of_cons, elem_of_nil.
      intros [H|[]]. discriminate H.
    + by intros st blob [=].
Qed.

End PagesFacts.

(* ===================================================================== *)
(** ** Further facts about the schema                                      *)
(* ===================================================================== *)

Section StatementFacts.
Import Schema.

(** Case analysis on the ten tables of the script. *)
Ltac each_table H :=
  unfold all_tables in H; rewrite !elem_of_cons, elem_of_nil in H;
  destruct H as [->|[->|[->|[->|[->|[->|[->|[->|[->|[->|[]]]]]]]]]]].

Lemma all_tables_columns_distinct (t : table) :
  t ∈ all_tables → NoDup (column_names t).
Proof.
  intros H. each_table H; apply (bool_decide_unpack _); by vm_compute.
Qed.

Lemma known_columns_spec (t : table) (m : row) :
  known_columns t m = true ↔ ∀ c, is_Some (m !! c) → has_column t c = true.
Proof.
  unfold known_columns. rewrite forallb_forall. split.
  - intros H c [v Hv]. apply H, list_elem_of_In, list_elem_of_fmap.
    exists (c, v). split; [done|]. by apply elem_of_map_to_list.
  - intros H c Hc. apply list_elem_of_In, list_elem_of_fmap in Hc as ([c' v] & -> & Hcv).
    apply elem_of_map_to_list in Hcv. apply H. by exists v.
Qed.

Lemma has_column_spec (t : table) (c : string) :
  has_column t c = true ↔ ∃ k, k ∈ tbl_columns t ∧ col_name k = c.
Proof.
  unfold has_column, column_names. rewrite bool_decide_eq_true, list_elem_of_fmap.
  split; intros (k & H1 & H2); exists k; done.
Qed.

(** *** Assignment conversions *)

#[local] Arguments byte_in : simpl never.
#[local] Arguments second_of_three : simpl never.
#[local] Arguments second_of_four : simpl never.

Lemma string_length_app (s t : string) :
  String.length (s +:+ t) = (String.length s + String.length t)%nat.
Proof.
  induction s as [|a s IH]; [done|].
  change (String a s +:+ t) with (String a (s +:+ t)). cbn. by rewrite IH.
Qed.

(** One decoding step: the first character is a prefix of the text, and is
    read off as a character whatever follows it. *)
Lemma utf8_chars_cons (s c : string) (cs : list string) :
  utf8_chars s = Some (c :: cs) →
  ∃ rest, s = c +:+ rest ∧ utf8_chars rest = Some cs
          ∧ (1 ≤ String.length c)%nat
          ∧ ∀ t, utf8_chars (c +:+ t) = cons c <$> utf8_chars t.
Proof.
  destruct s as [|a s]; [done|]. cbn [utf8_chars].
  destruct (byte_in 1%N 127%N a) eqn:E1.
  { destruct (utf8_chars s) as [l|] eqn:El; [|done]. intros [= <- <-].
    exists s. split; [done|]. split; [done|]. split; [cbn; lia|].
    intros t. unfold String.append; fold String.append. cbn [utf8_chars]. by rewrite E1. }
  destruct (byte_in 194%N 223%N a) eqn:E2.
  { destruct s as [|b s]; [done|].
    destruct (byte_in 128%N 191%N b) eqn:Eb; [|done].
    destruct (utf8_chars s) as [l|] eqn:El; [|done]. intros [= <- <-].
    exists s. split; [done|]. split; [done|]. split; [cbn; lia|].
    intros t. unfold String.append; fold String.append. cbn [utf8_chars]. by rewrite E1, E2, Eb. }
  destruct (byte_in 224%N 239%N a) eqn:E3.
  { destruct s as [|b [|c' s]]; [done..|].
    destruct (second_of_three a b && byte_in 128%N 191%N c') eqn:Eb; [|done].
    destruct (utf8_chars s) as [l|] eqn:El; [|done]. intros [= <- <-].
    exists s. split; [done|]. split; [done|]. split; [cbn; lia|].
    intros t. unfold String.append; fold String.append. cbn [utf8_chars]. by rewrite E1, E2, E3, Eb. }
  destruct (byte_in 240%N 244%N a) eqn:E4; [|done].
  destruct s as [|b [|c' [|d s]]]; [done..|].
  destruct (second_of_four a b && byte_in 128%N 191%N c' && byte_in 128%N 191%N d) eqn:Eb;
    [|done].
  destruct (utf8_chars s) as [l|] eqn:El; [|done]. intros [= <- <-].
  exists s. split; [done|]. split; [done|]. split; [cbn; lia|].
  intros t. unfold String.append; fold String.append. cbn [utf8_chars]. by rewrite E1, E2, E3, E4, Eb.
Qed.

(** The first characters of a text are a text with those characters. *)
Lemma utf8_chars_take (s : string) (cs : list string) (n : nat) :
  utf8_chars s = Some cs →
  utf8_chars (join (take n cs)) = Some (take n cs)
  ∧ (length (take n cs) ≤ String.length (join (take n cs)))%nat.
Proof.
  revert s n. induction cs as [|c cs IH]; intros s n H.
  - by rewrite take_nil.
  - destruct n as [|n]; [done|].
    apply utf8_chars_cons in H as (rest & -> & Hrest & Hlen & Hc).
    destruct (IH rest n Hrest) as [IH1 IH2].
    cbn [take join foldr]. fold (join (take n cs)). split.
    + change (c ++ join (take n cs))%string with (c +:+ join (take n cs)).
      by rewrite Hc, IH1.
    + change (c ++ join (take n cs))%string with (c +:+ join (take n cs)).
      rewrite string_length_app. cbn [length] in *. lia.
Qed.

Lemma fit_Some (n : nat) (s s' : string) :
  fit n s = Some s' →
  ∃ cs', utf8_chars s' = Some cs' ∧ (length cs' ≤ n)%nat
         ∧ (s' = s ∨ (n ≤ String.length s')%nat).
Proof.
  unfold fit. destruct (utf8_chars s) as [cs|] eqn:E; [|done].
  case_bool_decide as Hn.
  - intros [= <-]. eauto.
  - destruct (forallb _ _); [|done]. intros [= <-].
    destruct (utf8_chars_take s cs n E) as [H1 H2].
    exists (take n cs). split; [done|]. rewrite length_take in *.
    split; [lia|]. right. lia.
Qed.

Lemma fit_fits (n : nat) (s : string) :
  has_type (VString s) (VARCHAR n) = true → fit n s = Some s.
Proof.
  cbn. unfold fit. destruct (utf8_chars s); [|done].
  intros H. by rewrite H.
Qed.

(** Induction on JSON documents, through arrays and objects. *)
Lemma json_nested_ind (P : json → Prop) :
  P JNull → (∀ b, P (JBool b)) → (∀ n, P (JNum n)) → (∀ s, P (JStr s)) →
  (∀ items, Forall P items → P (JArr items)) →
  (∀ fields, Forall (fun kv : string * json => P kv.2) fields → P (JObj fields)) →
  ∀ j, P j.
Proof.
  intros HNull HBool HNum HStr HArr HObj.
  refine (fix IH (j : json) : P j :=
            match j with
            | JNull => HNull
            | JBool b => HBool b
            | JNum n => HNum n
            | JStr s => HStr s
            | JArr items =>
                HArr items
                  ((fix go (l : list json) : Forall P l :=
                      match l with
                      | [] => List.Forall_nil _
                      | x :: l' => List.Forall_cons _ _ _ (IH x) (go l')
                      end) items)
            | JObj fields =>
                HObj fields
                  ((fix go (l : list (string * json))
                      : Forall (fun kv : string * json => P kv.2) l :=
                      match l with
                      | [] => List.Forall_nil _
                      | kv :: l' =>
                          List.Forall_cons _ _ _
                            (match kv return P kv.2 with (_, v) => IH v end)
                            (go l')
                      end) fields)
            end).
Qed.

Lemma key_cmp_antisym (a b : string) : key_cmp b a = CompOpp (key_cmp a b).
Proof.
  unfold key_cmp. rewrite (Nat.compare_antisym (String.length a)).
  destruct (String.length a ?= String.length b)%nat; cbn; try done.
  apply String.compare_antisym.
Qed.

Lemma key_cmp_Eq (a b : string) : key_cmp a b = Eq → a = b.
Proof.
  unfold key_cmp. destruct (String.length a ?= String.length b)%nat; try done.
  apply String.compare_eq_iff.
Qed.

(** Adding a member keeps the keys ascending; the first key afterwards is
    the new key or the first key from before. *)
Lemma keys_ascending_add (k : string) (v : json) (fields : list (string * json)) :
  keys_ascending fields = true →
  keys_ascending (add_member k v fields) = true
  ∧ ∀ k0, (∀ k1 v1 rest, fields = (k1, v1) :: rest → key_cmp k0 k1 = Lt) →
          key_cmp k0 k = Lt →
          ∀ k2 v2 rest, add_member k v fields = (k2, v2) :: rest →
                        key_cmp k0 k2 = Lt.
Proof.
  induction fields as [|[k' v'] rest IH]; intros Hasc.
  - split; [done|]. intros k0 _ Hk k2 v2 rest' [= <- _ _]. done.
  - cbn [add_member]. destruct (key_cmp k k') eqn:E.
    + split; [done|]. intros k0 H0 _ k2 v2 rest' [= <- _ _]. by eapply H0.
    + split; [cbn [keys_ascending]; by rewrite E|].
      intros k0 _ Hk k2 v2 rest' [= <- _ _]. done.
    + assert (Hrest : keys_ascending rest = true).
      { cbn [keys_ascending] in Hasc. destruct rest as [|[k1 v1] rest1]; [done|].
        by destruct (key_cmp k' k1). }
      destruct (IH Hrest) as [IH1 IH2]. split.
      * cbn [keys_ascending].
        destruct (add_member k v rest) as [|[k2 v2] rest2] eqn:Ea; [done|].
        assert (Hlt : key_cmp k' k2 = Lt).
        { apply (IH2 k') with v2 rest2; [| |done].
          - intros k1 v1 rest1 ->. cbn [keys_ascending] in Hasc.
            by destruct (key_cmp k' k1).
          - rewrite key_cmp_antisym, E. done. }
        by rewrite Hlt.
      * intros k0 H0 _ k2 v2 rest' [= <- _ _]. by eapply H0.
Qed.

Lemma add_member_members (P : string * json → bool) (k : string) (v : json)
    (fields : list (string * json)) :
  P (k, v) = true → forallb P fields = true →
  forallb P (add_member k v fields) = true.
Proof.
  intros Hk. induction fields as [|[k' v'] rest IH]; cbn [add_member forallb].
  - by rewrite Hk.
  - intros [H1 H2]%andb_prop. destruct (key_cmp k k').
    + cbn [forallb]. by rewrite H1, H2.
    + cbn [forallb]. by rewrite Hk, H1, H2.
    + cbn [forallb]. by rewrite H1, IH.
Qed.

Lemma members_normal (members : list (string * json)) :
  forallb (fun kv : string * json => text_ok kv.1 && json_normal kv.2) members = true →
  json_normal (JObj (foldr (fun kv acc => add_member kv.1 kv.2 acc) [] members)) = true.
Proof.
  intros H. cbn [json_normal]. apply andb_true_intro.
  induction members as [|[k v] rest IH]; [done|].
  cbn [forallb] in H. apply andb_prop in H as [Hk Hrest].
  destruct (IH Hrest) as [IH1 IH2]. cbn [foldr fst snd]. split.
  - by apply add_member_members.
  - by apply keys_ascending_add.
Qed.

(** What the conversion to jsonb gives is a jsonb value. *)
Lemma to_jsonb_normal (j j' : json) :
  to_jsonb j = Some j' → json_normal j' = true.
Proof.
  revert j'. induction j as [| | | |items IH|fields IH] using json_nested_ind;
    intros j'; cbn [to_jsonb].
  - by intros [= <-].
  - by intros [= <-].
  - by intros [= <-].
  - destruct (text_ok s) eqn:E; [|done]. intros [= <-]. done.
  - destruct (mapM to_jsonb items) as [items'|] eqn:E; [|done].
    intros [= <-]. cbn [json_normal].
    revert items' E. induction IH as [|x l Hx _ IHl]; intros items' E.
    + by injection E as <-.
    + cbn in E. destruct (to_jsonb x) as [x'|] eqn:Ex; [|done]. cbn in E.
      destruct (mapM to_jsonb l) as [l'|] eqn:El; [|done].
      injection E as <-. cbn [forallb]. by rewrite (Hx x'), (IHl l').
  - destruct (mapM _ fields) as [members|] eqn:E; [|done]. cbn.
    intros [= <-]. apply members_normal.
    revert members E. induction IH as [|[k v] l Hx _ IHl]; intros members E.
    + by injection E as <-.
    + cbn in E. destruct (to_jsonb v) as [v'|] eqn:Ev; [|done]. cbn in E.
      destruct (text_ok k) eqn:Ek; [|done]. cbn in E.
      destruct (mapM _ l) as [l'|] eqn:El; [|done].
      injection E as <-. cbn [forallb fst snd].
      by rewrite Ek, (Hx v'), (IHl l').
Qed.

Lemma foldr_add_ascending (fields : list (string * json)) :
  keys_ascending fields = true →
  foldr (fun kv acc => add_member kv.1 kv.2 acc) [] fields = fields.
Proof.
  induction fields as [|[k v] rest IH]; [done|]. intros H.
  cbn [foldr fst snd]. cbn [keys_ascending] in H.
  destruct rest as [|[k' v'] rest']; [done|].
  destruct (key_cmp k k') eqn:E; try done.
  rewrite IH by done. cbn [add_member]. by rewrite E.
Qed.

(** A jsonb value is its own conversion. *)
Lemma to_jsonb_fixed (j : json) : json_normal j = true → to_jsonb j = Some j.
Proof.
  induction j as [| | | |items IH|fields IH] using json_nested_ind;
    cbn [json_normal to_jsonb]; try done.
  - by intros ->.
  - intros H. assert (E : mapM to_jsonb items = Some items).
    { induction IH as [|x l Hx _ IHl]; [done|].
      cbn [forallb] in H. apply andb_prop in H as [H1 H2].
      cbn. rewrite (Hx H1). cbn. by rewrite (IHl H2). }
    by rewrite E.
  - intros [H Hasc]%andb_prop.
    assert (E : mapM (fun kv : string * json =>
                        v ← to_jsonb kv.2;
                        if text_ok kv.1 then Some (kv.1, v) else None) fields
                = Some fields).
    { clear Hasc. induction IH as [|[k v] l Hx _ IHl]; [done|].
      cbn [forallb fst snd] in H. apply andb_prop in H as [H1 H2].
      apply andb_prop in H1 as [Hk Hv]. cbn [fst snd] in Hx.
      cbn. rewrite (Hx Hv). cbn. rewrite Hk. cbn. by rewrite (IHl H2). }
    rewrite E. cbn. by rewrite foldr_add_ascending.
Qed.

(** What an assignment stores is in the form the column stores. *)
Lemma coerce_has_type (show : sql_value → string) (ty : sql_type)
    (v v' : sql_value) :
  coerce show ty v = Some v' → has_type v' ty = true.
Proof.
  assert (Htext : ∀ n s, VString <$> fit n s = Some v' →
                         has_type v' (VARCHAR n) = true).
  { intros n s H. destruct (fit n s) as [s'|] eqn:E; [|done].
    injection H as <-. apply fit_Some in E as (cs' & E & Hn & _).
    cbn. rewrite E. by apply bool_decide_eq_true. }
  assert (Htext' : ∀ s, (if text_ok s then Some (VString s) else None) = Some v' →
                        has_type v' TEXT = true).
  { intros s H. destruct (text_ok s) eqn:E; [|done]. by injection H as <-. }
  assert (Hsame : ∀ w, (if has_type w ty then Some w else None) = Some v' →
                       has_type v' ty = true).
  { intros w H. destruct (has_type w ty) eqn:E; [|done]. by injection H as <-. }
  destruct v; cbn [coerce]; [by intros [= <-]|..];
    destruct ty; try (by apply Hsame); try (by apply Htext);
    try (by apply Htext'); try done.
  destruct (to_jsonb j) as [j'|] eqn:E; [|done]. intros [= <-].
  cbn. by eapply to_jsonb_normal.
Qed.

(** A value in stored form is assigned as it is. *)
Lemma coerce_stored (show : sql_value → string) (ty : sql_type) (v : sql_value) :
  has_type v ty = true → coerce show ty v = Some v.
Proof.
  destruct v, ty; try done; cbn [coerce text_of]; intros H;
    try (by rewrite H).
  - by rewrite (fit_fits _ _ H).
  - cbn in H. by rewrite H.
  - cbn in H. by rewrite (to_jsonb_fixed _ H).
Qed.

Lemma column_named_Some (t : table) (c : string) (k : column) :
  column_named t c = Some k → k ∈ tbl_columns t ∧ col_name k = c.
Proof.
  unfold column_named. intros H. apply find_some in H as [H1 H2].
  split; [by apply list_elem_of_In|by apply bool_decide_eq_true in H2].
Qed.

Lemma column_named_None (t : table) (c : string) :
  column_named t c = None ↔ has_column t c = false.
Proof.
  unfold column_named, has_column, column_names. split.
  - intros H. apply bool_decide_eq_false.
    intros (k & Hc & Hk)%list_elem_of_fmap.
    pose proof (find_none _ _ H k (proj1 (list_elem_of_In _ _) Hk)) as Hn.
    cbn in Hn. by apply bool_decide_eq_false in Hn.
  - intros H. apply bool_decide_eq_false in H.
    destruct (List.find _ _) as [k|] eqn:E; [|done]. exfalso. apply H.
    apply find_some in E as [E1 E2]. apply bool_decide_eq_true in E2.
    apply list_elem_of_fmap. exists k. split; [done|by apply list_elem_of_In].
Qed.

Lemma column_named_unique (t : table) (k : column) :
  NoDup (column_names t) → k ∈ tbl_columns t →
  column_named t (col_name k) = Some k.
Proof.
  unfold column_named, column_names. induction (tbl_columns t) as [|k' l IH]; intros Hnd Hk.
  - by apply elem_of_nil in Hk.
  - cbn [List.find]. case_bool_decide as E.
    + apply elem_of_cons in Hk as [->|Hk]; [done|]. exfalso.
      cbn in Hnd. apply NoDup_cons in Hnd as [Hnd _]. apply Hnd.
      apply list_elem_of_fmap. exists k. by rewrite E.
    + apply elem_of_cons in Hk as [->|Hk]; [done|].
      cbn in Hnd. apply NoDup_cons in Hnd as [_ Hnd]. by apply IH.
Qed.

(** The statement's values are converted one by one; the conversion of the
    statement fails when that of one value does. *)
Lemma coerce_row_Some (show : sql_value → string) (t : table) (vals a : row) :
  coerce_row show t vals = Some a ↔
  (∀ c v, vals !! c = Some v → is_Some (convert show t c v))
  ∧ a = map_imap (convert show t) vals.
Proof.
  unfold coerce_row. destruct (forallb _ _) eqn:E.
  - rewrite forallb_forall in E. split.
    + intros [= <-]. split; [|done]. intros c v Hv.
      specialize (E (c, v)). cbn in E.
      eapply bool_decide_eq_true_1, E.
      by apply list_elem_of_In, elem_of_map_to_list.
    + by intros [_ ->].
  - split; [done|]. intros [H _]. exfalso.
    apply not_true_iff_false in E. apply E. apply forallb_forall.
    intros [c v] Hcv. apply list_elem_of_In, elem_of_map_to_list in Hcv.
    cbn. apply bool_decide_eq_true. by eapply H.
Qed.

Lemma coerce_row_None (show : sql_value → string) (t : table) (vals : row)
    (c : string) (v : sql_value) :
  vals !! c = Some v → convert show t c v = None → coerce_row show t vals = None.
Proof.
  intros Hv Hc. destruct (coerce_row show t vals) as [a|] eqn:E; [|done].
  apply coerce_row_Some in E as [E _]. destruct (E c v Hv) as [? ?]. congruence.
Qed.

Lemma coerce_row_lookup (show : sql_value → string) (t : table) (vals a : row)
    (c : string) :
  coerce_row show t vals = Some a → a !! c = vals !! c ≫= convert show t c.
Proof.
  intros [_ ->]%coerce_row_Some. rewrite map_lookup_imap. done.
Qed.

Lemma coerce_row_lookup_None (show : sql_value → string) (t : table)
    (vals a : row) (c : string) :
  coerce_row show t vals = Some a → (a !! c = None ↔ vals !! c = None).
Proof.
  intros H. rewrite (coerce_row_lookup _ _ _ _ c H).
  apply coerce_row_Some in H as [H _].
  destruct (vals !! c) as [v|] eqn:E; cbn; [|done].
  destruct (H c v E) as [w ->]. done.
Qed.

Lemma coerce_non_null (show : sql_value → string) (ty : sql_type)
    (v v' : sql_value) :
  coerce show ty v = Some v' → (v' = VNull ↔ v = VNull).
Proof.
  destruct v; cbn [coerce]; [by intros [= <-]|..]; intros H; split;
    try discriminate; intros ->; exfalso; destruct ty; cbn in H;
    repeat (match type of H with
            | context [fit ?n ?s] => destruct (fit n s)
            | context [text_ok ?s] => destruct (text_ok s)
            | context [to_jsonb ?j] => destruct (to_jsonb j)
            | context [bool_decide ?P] => destruct (bool_decide P)
            end; cbn in H); discriminate H.
Qed.

Lemma coerce_row_known (show : sql_value → string) (t : table) (vals a : row) :
  coerce_row show t vals = Some a → known_columns t a = true.
Proof.
  intros H. apply known_columns_spec. intros c [w Hw].
  rewrite (coerce_row_lookup _ _ _ _ c H) in Hw.
  destruct (vals !! c) as [v|]; [|done]. cbn in Hw. unfold convert in Hw.
  destruct (column_named t c) as [k|] eqn:E; [|done].
  apply column_named_Some in E. apply has_column_spec. by exists k.
Qed.

(** Values in stored form pass the conversion as they are, so on them the
    statements are [sql_insert] and [sql_update]. *)
Lemma coerce_row_stored (show : sql_value → string) (t : table) (vals : row) :
  NoDup (column_names t) →
  (∀ c v, vals !! c = Some v →
          ∃ k, k ∈ tbl_columns t ∧ col_name k = c ∧ has_type v (col_type k) = true) →
  coerce_row show t vals = Some vals.
Proof.
  intros Hnd H. apply coerce_row_Some.
  assert (Hc : ∀ c v, vals !! c = Some v → convert show t c v = Some v).
  { intros c v Hv. destruct (H c v Hv) as (k & Hk & <- & Ht).
    unfold convert. rewrite column_named_unique by done.
    by apply coerce_stored. }
  split.
  - intros c v Hv. rewrite (Hc c v Hv). eauto.
  - apply map_eq. intros c. rewrite map_lookup_imap.
    destruct (vals !! c) as [v|] eqn:E; [|done]. cbn. by rewrite (Hc c v E).
Qed.


(** A NOT NULL column that gets NULL or, having no default, nothing. *)
Lemma sql_insert_not_null (t : table) (e : env) (vals : row) (k : column) :
  NoDup (column_names t) → k ∈ tbl_columns t → col_not_null k = true →
  vals !! col_name k = Some VNull
  ∨ (vals !! col_name k = None ∧ col_default k = None) →
  sql_insert t e vals = None.
Proof.
  intros Hnd Hk Hnn Hv. unfold sql_insert.
  destruct (known_columns t vals); [|done].
  destruct (row_ok t (new_row t e vals)) eqn:Hok; [|done]. exfalso.
  pose proof (row_ok_column _ _ _ Hok Hk) as Hc. unfold value_of in Hc.
  rewrite new_row_lookup in Hc by done.
  cbn in Hc. unfold insert_value in Hc.
  destruct Hv as [Hv|[Hv Hd]]; rewrite Hv in Hc; [|rewrite Hd in Hc];
    unfold column_ok in Hc; rewrite Hnn in Hc; cbn in Hc; discriminate Hc.
Qed.

Lemma insert_statement_not_null (show : sql_value → string) (t : table)
    (e : env) (vals : row) (k : column) :
  NoDup (column_names t) → k ∈ tbl_columns t → col_not_null k = true →
  vals !! col_name k = Some VNull
  ∨ (vals !! col_name k = None ∧ col_default k = None) →
  insert_statement show t e vals = None.
Proof.
  intros Hnd Hk Hnn Hv. unfold insert_statement.
  destruct (coerce_row show t vals) as [a|] eqn:E; [|done]. cbn.
  apply (sql_insert_not_null t e a k); try done.
  destruct Hv as [Hv|[Hv Hd]].
  - left. rewrite (coerce_row_lookup _ _ _ _ _ E), Hv. cbn.
    unfold convert. by rewrite column_named_unique.
  - right. split; [|done]. by apply (coerce_row_lookup_None _ _ _ _ _ E).
Qed.

Lemma insert_statement_unknown (show : sql_value → string) (t : table)
    (e : env) (vals : row) (c : string) :
  is_Some (vals !! c) → has_column t c = false →
  insert_statement show t e vals = None.
Proof.
  intros [v Hv] Hc. unfold insert_statement.
  rewrite (coerce_row_None show t vals c v); [done..|].
  unfold convert. apply column_named_None in Hc. by rewrite Hc.
Qed.

(** X12: in every table of the script, an INSERT that names a column the
    table does not have is rejected, and so is one that leaves out a NOT
    NULL column without DEFAULT or gives NULL for any NOT NULL column. *)
Theorem insert_requires_columns (show : sql_value → string) (t : table)
    (e : env) (vals : row) :
  t ∈ all_tables →
  (∀ c, is_Some (vals !! c) → has_column t c = false →
        insert_statement show t e vals = None)
  ∧ (∀ k, k ∈ tbl_columns t → col_not_null k = true →
          vals !! col_name k = Some VNull
          ∨ (vals !! col_name k = None ∧ col_default k = None) →
          insert_statement show t e vals = None).
Proof.
  intros Ht. split.
  - intros c. apply insert_statement_unknown.
  - intros k. by apply insert_statement_not_null, all_tables_columns_distinct.
Qed.

Lemma insert_requires_columns_witness :
  insert_statement Fixtures.show_nothing scheduled_posts (Env 1000 "p1")
    {[ "content" := VString "hello"; "target_accounts" := VJson (JArr []);
       "scheduled_time" := VTime 500; "priority" := VInt 1 ]} = None
  ∧ insert_statement Fixtures.show_nothing scheduled_posts (Env 1000 "p1")
      {[ "content" := VString "hello"; "target_accounts" := VJson (JArr []) ]}
    = None.
Proof.
  assert (Ht : scheduled_posts ∈ all_tables)
    by (unfold all_tables; rewrite !elem_of_cons; auto 20).
  split.
  - apply (proj1 (insert_requires_columns Fixtures.show_nothing scheduled_posts
                    (Env 1000 "p1") _ Ht) "priority").
    + exists (VInt 1). vm_cast_no_check (@eq_refl _ (Some (VInt 1))).
    + reflexivity.
  - apply (proj2 (insert_requires_columns Fixtures.show_nothing scheduled_posts
                    (Env 1000 "p1") _ Ht)
             (NOT_NULL (col "scheduled_time" TIMESTAMPTZ))).
    + cbn. rewrite !elem_of_cons. auto 20.
    + reflexivity.
    + right. split; [vm_cast_no_check (@eq_refl (option sql_value) None)|reflexivity].
Defined.




(** What the BEFORE UPDATE triggers do on each table of the script. *)
Lemma before_update_all (t : table) (now : Z) (NEW : row) :
  t ∈ all_tables →
  before_update t now NEW
  = Some (if has_column t "updated_at"
          then <["updated_at" := VTime now]> NEW else NEW).
Proof. intros H. each_table H; reflexivity. Qed.

Lemma timestamped_iff_column (t : table) :
  t ∈ all_tables →
  (t ∈ timestamped_tables ↔ has_column t "updated_at" = true)
  ∧ (t ∈ timestamped_tables ↔ triggers_on t ≠ []).
Proof.
  intros H. unfold timestamped_tables. rewrite !elem_of_cons, elem_of_nil.
  each_table H; split; split; intros Hc;
    first [ by vm_compute
          | by auto 10
          | by (vm_compute in Hc; discriminate Hc)
          | by (vm_compute in Hc; destruct Hc)
          | by (exfalso; vm_compute in Hc;
                repeat (destruct Hc as [Hc|Hc]; [discriminate Hc|])) ].
Qed.

(** X14: the timestamp trigger is attached to exactly the tables of the
    script that have an [updated_at] column, and every trigger names a
    table of the script, so on no table does the trigger fail.  On those
    six tables every accepted UPDATE stores the time of the statement in
    [updated_at]; on the tables without the column (platforms, api_keys,
    analytics, activity_logs) an accepted UPDATE stores the converted SET
    list over the old row and nothing else. *)
Theorem triggers_match_updated_at (t : table) :
  t ∈ all_tables →
  (t ∈ timestamped_tables ↔ has_column t "updated_at" = true)
  ∧ (t ∈ timestamped_tables ↔ triggers_on t ≠ [])
  ∧ (∀ g, g ∈ triggers → ∃ t', t' ∈ all_tables ∧ tbl_name t' = trg_table g)
  ∧ (∀ now NEW, is_Some (before_update t now NEW))
  ∧ (t ∈ timestamped_tables →
     ∀ show now OLD assignments NEW,
       update_statement show t now OLD assignments = Some NEW →
       NEW !! "updated_at" = Some (VTime now))
  ∧ (t ∉ timestamped_tables →
     ∀ show now OLD assignments NEW,
       update_statement show t now OLD assignments = Some NEW →
       ∃ a, coerce_row show t assignments = Some a ∧ NEW = a ∪ OLD).
Proof.
  intros Ht. destruct (timestamped_iff_column t Ht) as [H1 H2].
  split; [done|]. split; [done|]. split; [|split; [|split]].
  - intros g Hg. unfold triggers in Hg.
    repeat (apply elem_of_cons in Hg as [->|Hg]);
      [exists tenants|exists users|exists social_accounts
      |exists content_templates|exists scheduled_posts|exists automation_rules|];
      try (split; [unfold all_tables; rewrite !elem_of_cons; auto 20|reflexivity]).
    by apply elem_of_nil in Hg.
  - intros now NEW. rewrite before_update_all by done. eauto.
  - intros Hin show now OLD assignments NEW. unfold update_statement.
    destruct (coerce_row show t assignments) as [a|]; [|done]. cbn.
    unfold sql_update. rewrite (before_update_timestamped _ _ _ Hin).
    destruct (known_columns t a); [|done].
    destruct (row_ok t _); [|done]. intros [= <-]. apply lookup_insert_eq.
  - intros Hno show now OLD assignments NEW. unfold update_statement.
    destruct (coerce_row show t assignments) as [a|]; [|done]. cbn.
    unfold sql_update. rewrite before_update_all by done.
    destruct (has_column t "updated_at") eqn:E; [by destruct Hno; apply H1|].
    destruct (known_columns t a); [|done].
    destruct (row_ok t (a ∪ OLD)); [|done]. intros [= <-]. eauto.
Qed.

Lemma triggers_match_updated_at_witness :
  has_column api_keys "updated_at" = false
  ∧ is_Some (before_update api_keys 2000 ∅)
  ∧ update_statement Fixtures.show_nothing api_keys 2000 Fixtures.key_row Fixtures.rename_key
    = Some ({[ "key_name" := VString "42" ]} ∪ Fixtures.key_row).
Proof.
  assert (Ht : api_keys ∈ all_tables)
    by (unfold all_tables; rewrite !elem_of_cons; auto 20).
  destruct (triggers_match_updated_at api_keys Ht) as (_ & _ & _ & H & _ & Hno).
  split; [reflexivity|]. split; [apply H|].
  assert (E : update_statement Fixtures.show_nothing api_keys 2000 Fixtures.key_row
                Fixtures.rename_key
              = Some ({[ "key_name" := VString "42" ]} ∪ Fixtures.key_row))
    by (vm_cast_no_check
          (@eq_refl _ (Some ({[ "key_name" := VString "42" ]} ∪ Fixtures.key_row)))).
  exact E.
Defined.


(** X15: two accepted UPDATEs of a row, one after the other, store what
    the single UPDATE with the second SET list laid over the first stores
    at the time of the second: later assignments win, and the trigger's
    timestamp is that of the last statement. *)
Theorem updates_compose (t : table) (n1 n2 : Z) (OLD a1 a2 r1 r2 : row) :
  t ∈ all_tables →
  sql_update t n1 OLD a1 = Some r1 →
  sql_update t n2 r1 a2 = Some r2 →
  sql_update t n2 OLD (a2 ∪ a1) = Some r2.
Proof.
  intros Ht. unfold sql_update. rewrite !before_update_all by done.
  destruct (known_columns t a1) eqn:K1; [|done].
  destruct (known_columns t a2) eqn:K2; [|done].
  assert (K : known_columns t (a2 ∪ a1) = true).
  { apply known_columns_spec. intros c [v Hv].
    apply lookup_union_Some_raw in Hv as [Hv|[_ Hv]].
    - apply (proj1 (known_columns_spec t a2) K2). eauto.
    - apply (proj1 (known_columns_spec t a1) K1). eauto. }
  rewrite K.
  destruct (row_ok t _) eqn:O1; [|done]. intros [= <-].
  assert (E : (if has_column t "updated_at"
               then <["updated_at" := VTime n2]>
                      (a2 ∪ (if has_column t "updated_at"
                             then <["updated_at" := VTime n1]> (a1 ∪ OLD)
                             else a1 ∪ OLD))
               else a2 ∪ (if has_column t "updated_at"
                          then <["updated_at" := VTime n1]> (a1 ∪ OLD)
                          else a1 ∪ OLD))
              = (if has_column t "updated_at"
                 then <["updated_at" := VTime n2]> ((a2 ∪ a1) ∪ OLD)
                 else (a2 ∪ a1) ∪ OLD)).
  { destruct (has_column t "updated_at").
    - apply map_eq. intros c. destruct (decide (c = "updated_at")) as [->|Hc].
      + by rewrite !lookup_insert_eq.
      + rewrite !lookup_insert_ne by done.
        rewrite !lookup_union, lookup_insert_ne by done.
        rewrite lookup_union.
        by destruct (a2 !! c), (a1 !! c), (OLD !! c).
    - by rewrite (assoc_L (∪)). }
  rewrite E. done.
Qed.

Lemma updates_compose_witness :
  sql_update scheduled_posts 3000 Samples.sample_post
    (Fixtures.publish ∪ Samples.retitle)
  = Some (<["updated_at" := VTime 3000]>
            (Fixtures.publish
             ∪ <["updated_at" := VTime 2000]>
                 (Samples.retitle ∪ Samples.sample_post))).
Proof.
  apply (updates_compose scheduled_posts 2000 3000 Samples.sample_post
           Samples.retitle Fixtures.publish
           (<["updated_at" := VTime 2000]> (Samples.retitle ∪ Samples.sample_post))).
  - unfold all_tables. rewrite !elem_of_cons. auto 20.
  - vm_cast_no_check
      (@eq_refl _ (Some (<["updated_at" := VTime 2000]>
                           (Samples.retitle ∪ Samples.sample_post)))).
  - vm_cast_no_check
      (@eq_refl _ (Some (<["updated_at" := VTime 3000]>
                           (Fixtures.publish
                            ∪ <["updated_at" := VTime 2000]>
                                (Samples.retitle ∪ Samples.sample_post))))).
Defined.

(** *** Automation rules *)

(** Look up the columns of a [rule_values] map by evaluation. *)
Ltac rule_lookups :=
  repeat match goal with
  | |- context [rule_values ?a ?b ?c ?d ?f ?g !! ?k] =>
      let x := eval vm_compute in (rule_values a b c d f g !! k) in
      change (rule_values a b c d f g !! k) with x
  end.

(** A listed name fits its column as it is, and a text that is cut to fit
    is no listed name. *)
Lemma fit_listed (names : list string) (ty : string) :
  Forall (fun s => (String.length s < 30)%nat ∧ fit 30 s = Some s) names →
  (∃ y, fit 30 ty = Some y ∧ y ∈ names) ↔ ty ∈ names.
Proof.
  intros Hn. rewrite Forall_forall in Hn. split.
  - intros (y & Hy & Hin). destruct (Hn y Hin) as [Hlen _].
    apply fit_Some in Hy as (_ & _ & _ & [->|Hlong]); [done|lia].
  - intros Hin. exists ty. split; [|done]. by apply Hn.
Qed.

Lemma trigger_types_fit :
  Forall (fun s => (String.length s < 30)%nat ∧ fit 30 s = Some s) trigger_types.
Proof. repeat constructor; by vm_compute. Qed.

Lemma action_types_fit :
  Forall (fun s => (String.length s < 30)%nat ∧ fit 30 s = Some s) action_types.
Proof. repeat constructor; by vm_compute. Qed.

Lemma rule_values_lookup (name ty : string) (cfg : json) (act : string)
    (acfg targets : json) (c : string) (v : sql_value) :
  rule_values name ty cfg act acfg targets !! c = Some v ↔
    (c = "name" ∧ v = VString name) ∨ (c = "trigger_type" ∧ v = VString ty)
    ∨ (c = "trigger_config" ∧ v = VJson cfg) ∨ (c = "action_type" ∧ v = VString act)
    ∨ (c = "action_config" ∧ v = VJson acfg)
    ∨ (c = "target_accounts" ∧ v = VJson targets).
Proof.
  unfold rule_values. rewrite !lookup_insert_Some, lookup_singleton_Some. split.
  - intros H. repeat (destruct H as [[<- <-]|[_ H]]; [tauto|]).
    destruct H as [<- <-]. tauto.
  - intros H.
    repeat (destruct H as [[-> ->]|H]; [repeat (first [by left|right; split; [done|]])|]).
    destruct H as [-> ->]. repeat (first [done|right; split; [done|]]).
Qed.

(** The conversion of the values of a rule. *)
Lemma coerce_rule_values (show : sql_value → string) (name ty : string)
    (cfg : json) (act : string) (acfg targets : json) (a : row) :
  coerce_row show automation_rules (rule_values name ty cfg act acfg targets) = Some a
  ↔ ∃ n y c x ac tg,
      fit 100 name = Some n ∧ fit 30 ty = Some y ∧ to_jsonb cfg = Some c
      ∧ fit 30 act = Some x ∧ to_jsonb acfg = Some ac ∧ to_jsonb targets = Some tg
      ∧ a = rule_values n y c x ac tg.
Proof.
  assert (C1 : ∀ v, convert show automation_rules "name" v
                    = coerce show (VARCHAR 100) v) by reflexivity.
  assert (C2 : ∀ v, convert show automation_rules "trigger_type" v
                    = coerce show (VARCHAR 30) v) by reflexivity.
  assert (C3 : ∀ v, convert show automation_rules "trigger_config" v
                    = coerce show JSONB v) by reflexivity.
  assert (C4 : ∀ v, convert show automation_rules "action_type" v
                    = coerce show (VARCHAR 30) v) by reflexivity.
  assert (C5 : ∀ v, convert show automation_rules "action_config" v
                    = coerce show JSONB v) by reflexivity.
  assert (C6 : ∀ v, convert show automation_rules "target_accounts" v
                    = coerce show JSONB v) by reflexivity.
  rewrite coerce_row_Some. split.
  - intros [H ->].
    destruct (H "name" (VString name)) as [n Hn]; [by rule_lookups|].
    destruct (H "trigger_type" (VString ty)) as [y Hy]; [by rule_lookups|].
    destruct (H "trigger_config" (VJson cfg)) as [c Hc]; [by rule_lookups|].
    destruct (H "action_type" (VString act)) as [x Hx]; [by rule_lookups|].
    destruct (H "action_config" (VJson acfg)) as [ac Hac]; [by rule_lookups|].
    destruct (H "target_accounts" (VJson targets)) as [tg Htg]; [by rule_lookups|].
    rewrite C1 in Hn. rewrite C2 in Hy. rewrite C3 in Hc. rewrite C4 in Hx.
    rewrite C5 in Hac. rewrite C6 in Htg.
    cbn [coerce text_of] in Hn, Hy, Hc, Hx, Hac, Htg.
    assert (Hn' : fit 100 name = None → False) by (by intros E; rewrite E in Hn).
    assert (Hy' : fit 30 ty = None → False) by (by intros E; rewrite E in Hy).
    assert (Hc' : to_jsonb cfg = None → False) by (by intros E; rewrite E in Hc).
    assert (Hx' : fit 30 act = None → False) by (by intros E; rewrite E in Hx).
    assert (Hac' : to_jsonb acfg = None → False) by (by intros E; rewrite E in Hac).
    assert (Htg' : to_jsonb targets = None → False)
      by (by intros E; rewrite E in Htg).
    clear Hn Hy Hc Hx Hac Htg.
    destruct (fit 100 name) as [n'|] eqn:Fn; [|by destruct Hn'].
    destruct (fit 30 ty) as [y'|] eqn:Fy; [|by destruct Hy'].
    destruct (to_jsonb cfg) as [c'|] eqn:Fc; [|by destruct Hc'].
    destruct (fit 30 act) as [x'|] eqn:Fx; [|by destruct Hx'].
    destruct (to_jsonb acfg) as [ac'|] eqn:Fac; [|by destruct Hac'].
    destruct (to_jsonb targets) as [tg'|] eqn:Ftg; [|by destruct Htg'].
    exists n', y', c', x', ac', tg'. repeat split.
    apply map_eq. intros k. rewrite map_lookup_imap.
    destruct (rule_values n' y' c' x' ac' tg' !! k) as [w|] eqn:E.
    + apply rule_values_lookup in E.
      repeat (destruct E as [[-> ->]|E];
              [rule_lookups; cbn [mbind option_bind];
               rewrite ?C1, ?C2, ?C3, ?C4, ?C5, ?C6; cbn [coerce text_of];
               by rewrite ?Fn, ?Fy, ?Fc, ?Fx, ?Fac, ?Ftg|]).
      destruct E as [-> ->]. rule_lookups. cbn [mbind option_bind].
      rewrite C6. cbn [coerce]. by rewrite Ftg.
    + destruct (rule_values name ty cfg act acfg targets !! k) as [w|] eqn:E';
        [|done].
      apply rule_values_lookup in E'. exfalso.
      repeat (destruct E' as [[-> ->]|E']; [by vm_compute in E|]).
      destruct E' as [-> ->]. by vm_compute in E.
  - intros (n & y & c & x & ac & tg & Hn & Hy & Hc & Hx & Hac & Htg & ->). split.
    + intros k v Hv. apply rule_values_lookup in Hv.
      repeat (destruct Hv as [[-> ->]|Hv];
              [rewrite ?C1, ?C2, ?C3, ?C4, ?C5, ?C6; cbn [coerce text_of];
               rewrite ?Hn, ?Hy, ?Hc, ?Hx, ?Hac, ?Htg; by eexists|]).
      destruct Hv as [-> ->]. rewrite C6. cbn [coerce]. rewrite Htg. by eexists.
    + apply map_eq. intros k. rewrite map_lookup_imap.
      destruct (rule_values n y c x ac tg !! k) as [w|] eqn:E.
      * apply rule_values_lookup in E.
        repeat (destruct E as [[-> ->]|E];
                [rule_lookups; cbn [mbind option_bind];
                 rewrite ?C1, ?C2, ?C3, ?C4, ?C5, ?C6; cbn [coerce text_of];
                 by rewrite ?Hn, ?Hy, ?Hc, ?Hx, ?Hac, ?Htg|]).
        destruct E as [-> ->]. rule_lookups. cbn [mbind option_bind].
        rewrite C6. cbn [coerce]. by rewrite Htg.
      * destruct (rule_values name ty cfg act acfg targets !! k) as [w|] eqn:E';
          [|done].
        apply rule_values_lookup in E'. exfalso.
        repeat (destruct E' as [[-> ->]|E']; [by vm_compute in E|]).
        destruct E' as [-> ->]. by vm_compute in E.
Qed.

Lemma rule_row_ok (e : env) (n y : string) (c : json) (x : string)
    (ac tg : json) :
  has_type (VString n) (VARCHAR 100) = true →
  has_type (VString y) (VARCHAR 30) = true →
  has_type (VString x) (VARCHAR 30) = true →
  json_normal c = true → json_normal ac = true → json_normal tg = true →
  row_ok automation_rules
    (new_row automation_rules e (rule_values n y c x ac tg)) = true
  ↔ y ∈ trigger_types ∧ x ∈ action_types.
Proof.
  intros Hn Hy Hx Hc Hac Htg.
  rewrite row_ok_new_row by apply automation_rules_columns_distinct.
  cbn [forallb tbl_columns automation_rules]. unfold insert_value.
  cbn [col_name col_default PRIMARY_KEY NOT_NULL DEFAULT CHECK_IN col].
  rule_lookups. unfold column_ok.
  cbn [col_type col_not_null col_check_in PRIMARY_KEY NOT_NULL DEFAULT CHECK_IN col
       from_option eval_default empty_object].
  rewrite Hn, Hy, Hx.
  change (has_type (VJson c) JSONB) with (json_normal c).
  change (has_type (VJson ac) JSONB) with (json_normal ac).
  change (has_type (VJson tg) JSONB) with (json_normal tg).
  rewrite Hc, Hac, Htg.
  cbn [has_type check_ok is_null negb orb andb].
  rewrite !andb_true_r, andb_true_iff, !bool_decide_eq_true. done.
Qed.

(** C6 (amended): the schema checks a new rule's trigger type against the
    four names and its action type against the five names, and requires
    the configurations to be present: an INSERT with a NULL or no
    [trigger_config] is refused.  It does not look into the trigger
    configuration: whatever JSON document it is, the INSERT is accepted
    exactly when the name fits its column (up to trailing spaces that are
    cut), both types are listed and the three documents have a jsonb
    value, and the stored rule is active by default and carries the
    configuration as its jsonb value. *)
Theorem automation_rules_insert (show : sql_value → string) (e : env)
    (name ty : string) (cfg : json) (act : string) (acfg targets : json) :
  let vals := rule_values name ty cfg act acfg targets in
  (is_Some (insert_statement show automation_rules e vals)
     ↔ is_Some (fit 100 name) ∧ ty ∈ trigger_types ∧ act ∈ action_types
       ∧ is_Some (to_jsonb cfg) ∧ is_Some (to_jsonb acfg)
       ∧ is_Some (to_jsonb targets))
  ∧ (∀ r, insert_statement show automation_rules e vals = Some r →
       r !! "is_active" = Some (VBool true)
       ∧ r !! "trigger_type" = Some (VString ty)
       ∧ r !! "trigger_config" = VJson <$> to_jsonb cfg)
  ∧ insert_statement show automation_rules e (<["trigger_config" := VNull]> vals)
    = None
  ∧ insert_statement show automation_rules e (delete "trigger_config" vals) = None.
Proof.
  intros vals.
  assert (Hnull : ∀ m, m !! "trigger_config" = Some VNull ∨ m !! "trigger_config" = None →
                       insert_statement show automation_rules e m = None).
  { intros m Hm.
    apply (insert_statement_not_null show automation_rules e m
             (NOT_NULL (col "trigger_config" JSONB)));
      [apply automation_rules_columns_distinct
      |cbn; rewrite !elem_of_cons; auto 20|reflexivity|].
    destruct Hm as [Hm|Hm]; [by left|by right]. }
  assert (Hcases :
    match insert_statement show automation_rules e vals with
    | Some r =>
        ∃ n c ac tg, fit 100 name = Some n ∧ to_jsonb cfg = Some c
          ∧ to_jsonb acfg = Some ac ∧ to_jsonb targets = Some tg
          ∧ ty ∈ trigger_types ∧ act ∈ action_types
          ∧ r = new_row automation_rules e (rule_values n ty c act ac tg)
    | None =>
        ¬ (is_Some (fit 100 name) ∧ ty ∈ trigger_types ∧ act ∈ action_types
           ∧ is_Some (to_jsonb cfg) ∧ is_Some (to_jsonb acfg)
           ∧ is_Some (to_jsonb targets))
    end).
  { unfold insert_statement, vals.
    destruct (coerce_row show automation_rules _) as [a|] eqn:E.
    - apply coerce_rule_values in E
        as (n & y & c & x & ac & tg & Hn & Hy & Hc & Hx & Hac & Htg & ->).
      cbn [mbind option_bind]. unfold sql_insert.
      replace (known_columns automation_rules (rule_values n y c x ac tg))
        with true by (by vm_compute).
      pose proof (rule_row_ok e n y c x ac tg) as Hok.
      assert (Hn' : has_type (VString n) (VARCHAR 100) = true)
        by (apply (coerce_has_type show _ (VString name)); cbn; by rewrite Hn).
      assert (Hy' : has_type (VString y) (VARCHAR 30) = true)
        by (apply (coerce_has_type show _ (VString ty)); cbn; by rewrite Hy).
      assert (Hx' : has_type (VString x) (VARCHAR 30) = true)
        by (apply (coerce_has_type show _ (VString act)); cbn; by rewrite Hx).
      specialize (Hok Hn' Hy' Hx' (to_jsonb_normal _ _ Hc) (to_jsonb_normal _ _ Hac)
                    (to_jsonb_normal _ _ Htg)).
      pose proof (proj1 (fit_listed trigger_types ty trigger_types_fit)) as Lty.
      pose proof (proj1 (fit_listed action_types act action_types_fit)) as Lact.
      pose proof (proj2 (fit_listed trigger_types ty trigger_types_fit)) as Rty.
      pose proof (proj2 (fit_listed action_types act action_types_fit)) as Ract.
      destruct (row_ok automation_rules (new_row _ _ _)) eqn:R.
      + destruct (proj1 Hok eq_refl) as [Hy2 Hx2].
        assert (Hty : ty ∈ trigger_types) by (apply Lty; eauto).
        assert (Hact : act ∈ action_types) by (apply Lact; eauto).
        destruct (Rty Hty) as (y2 & Ey & _). destruct (Ract Hact) as (x2 & Ex & _).
        assert (y = ty) as ->.
        { destruct (proj1 (Forall_forall _ _) trigger_types_fit ty Hty) as [_ F].
          congruence. }
        assert (x = act) as ->.
        { destruct (proj1 (Forall_forall _ _) action_types_fit act Hact) as [_ F].
          congruence. }
        exists n, c, ac, tg. repeat (split; [eassumption|]). reflexivity.
      + intros (_ & Hty & Hact & _).
        destruct (proj1 (Forall_forall _ _) trigger_types_fit ty Hty) as [_ F1].
        destruct (proj1 (Forall_forall _ _) action_types_fit act Hact) as [_ F2].
        assert (y = ty) as -> by congruence. assert (x = act) as -> by congruence.
        assert (false = true) by (by apply Hok). done.
    - cbn. intros ([n Hn] & Hty & Hact & [c Hc] & [ac Hac] & [tg Htg]).
      destruct (proj1 (Forall_forall _ _) trigger_types_fit ty Hty) as [_ F1].
      destruct (proj1 (Forall_forall _ _) action_types_fit act Hact) as [_ F2].
      assert (Hsome : coerce_row show automation_rules
                        (rule_values name ty cfg act acfg targets)
                      = Some (rule_values n ty c act ac tg)).
      { apply coerce_rule_values. exists n, ty, c, act, ac, tg.
        repeat (split; [eassumption|]). reflexivity. }
      congruence. }
  split; [|split; [|split]].
  - destruct (insert_statement show automation_rules e vals) as [r|].
    + destruct Hcases as (n & c & ac & tg & Hn & Hc & Hac & Htg & Hty & Hact & _).
      split; [intros _|by eexists]. rewrite Hn, Hc, Hac, Htg. eauto 10.
    + split; [by intros [? ?]|done].
  - intros r Hr. rewrite Hr in Hcases.
    destruct Hcases as (n & c & ac & tg & Hn & Hc & Hac & Htg & Hty & Hact & ->).
    rewrite Hc. cbn [fmap option_fmap option_map].
    split; [|split];
      lazymatch goal with |- ?a = ?b => vm_cast_no_check (@eq_refl _ b) end.
  - apply Hnull. left. apply lookup_insert_eq.
  - apply Hnull. right. apply lookup_delete_eq.
Qed.


Lemma automation_rules_insert_witness :
  ∃ r, insert_statement Fixtures.show_nothing automation_rules (Env 1000 "r1")
         Fixtures.padded_rule = Some r
       ∧ r !! "is_active" = Some (VBool true)
       ∧ r !! "name" = Some (VString Fixtures.cut_name)
       ∧ r !! "trigger_config"
         = Some (VJson (JObj [("a", JNum 2); ("b", JNum 3)])).
Proof.
  assert (E : insert_statement Fixtures.show_nothing automation_rules
                (Env 1000 "r1") Fixtures.padded_rule
              = Some (new_row automation_rules (Env 1000 "r1")
                        (rule_values Fixtures.cut_name "engagement_based"
                           (JObj [("a", JNum 2); ("b", JNum 3)]) "like"
                           (JObj []) (JArr []))))
    by (vm_cast_no_check
          (@eq_refl _ (Some (new_row automation_rules (Env 1000 "r1")
                               (rule_values Fixtures.cut_name "engagement_based"
                                  (JObj [("a", JNum 2); ("b", JNum 3)]) "like"
                                  (JObj []) (JArr [])))))).
  eexists. split; [exact E|].
  destruct (proj1 (proj2 (automation_rules_insert Fixtures.show_nothing
                            (Env 1000 "r1") Fixtures.padded_name
                            "engagement_based"
                            (JObj [("b", JNum 1); ("a", JNum 2); ("b", JNum 3)])
                            "like" (JObj []) (JArr []))) _ E)
    as (H1 & _ & H3).
  split; [exact H1|]. split.
  - vm_cast_no_check (@eq_refl _ (Some (VString Fixtures.cut_name))).
  - etrans; [exact H3|].
    vm_cast_no_check
      (@eq_refl _ (Some (VJson (JObj [("a", JNum 2); ("b", JNum 3)])))).
Defined.

End StatementFacts.

(* ===================================================================== *)
(** ** Keys and references                                                 *)
(* ===================================================================== *)

Section KeyFacts.
Import Schema Keys.

Lemma same_key_eq (a b : sql_value) : same_key a b = true → a = b.
Proof.
  destruct a, b; cbn; try discriminate; intros H;
    apply bool_decide_eq_true in H; by subst.
Qed.

Lemma same_key_not_null (a b : sql_value) : same_key a b = true → a ≠ VNull.
Proof. by destruct a. Qed.

Lemma same_key_refl (a b : sql_value) : same_key a b = true → same_key a a = true.
Proof.
  destruct a, b; cbn; try discriminate; intros _; by apply bool_decide_eq_true.
Qed.

Lemma same_key_sym (a b : sql_value) : same_key a b = same_key b a.
Proof.
  destruct a, b; cbn; try done; apply bool_decide_ext; split; congruence.
Qed.

Lemma key_in_spec (v : sql_value) (ks : list sql_value) :
  key_in v ks = true ↔ v ∈ ks ∧ same_key v v = true.
Proof.
  unfold key_in. rewrite existsb_exists. split.
  - intros (k & Hk & E). apply list_elem_of_In in Hk.
    pose proof (same_key_refl _ _ E). apply same_key_eq in E. by subst.
  - intros [Hv Hn]. exists v. split; [by apply list_elem_of_In|done].
Qed.

Lemma is_null_spec (v : sql_value) : is_null v = true ↔ v = VNull.
Proof. by destruct v. Qed.

Lemma elem_of_references_of (fk : foreign_key) (tn : string) :
  fk ∈ references_of tn ↔ fk ∈ foreign_keys ∧ fk_table fk = tn.
Proof.
  unfold references_of.
  by rewrite !list_elem_of_In, filter_In, bool_decide_eq_true.
Qed.

Section Sweep.
Context (db : database) (target : string) (which : row → bool).

Lemma sweep_app (pre post : list string) (D : gmap string (list sql_value)) :
  sweep db target which (pre ++ post) D
  = sweep db target which post (sweep db target which pre D).
Proof. revert D. induction pre as [|tn pre IH]; intros D; cbn; [done|apply IH]. Qed.

Lemma sweep_notin (order : list string) (D : gmap string (list sql_value))
    (k : string) :
  k ∉ order → sweep db target which order D !! k = D !! k.
Proof.
  revert D. induction order as [|tn order IH]; intros D Hk; cbn; [done|].
  apply not_elem_of_cons in Hk as [Hne Hk].
  rewrite IH by done. by rewrite lookup_insert_ne.
Qed.

(** Whether a row is hit depends on the doomed ids of the tables its own
    table refers to only. *)
Lemma hit_ext (D D' : gmap string (list sql_value)) (tn : string) (r : row) :
  (∀ fk, fk ∈ references_of tn → D !! fk_references fk = D' !! fk_references fk) →
  hit target which D tn r = hit target which D' tn r.
Proof.
  intros H. unfold hit. f_equal.
  induction (references_of tn) as [|fk l IH]; [done|]. cbn.
  rewrite (H fk) by constructor.
  f_equal. apply IH. intros fk' Hfk'. apply H. by constructor.
Qed.

Lemma creation_order_NoDup : NoDup creation_order.
Proof. apply (bool_decide_unpack _). by vm_compute. Qed.

Lemma foreign_keys_backwards (fk : foreign_key) :
  fk ∈ foreign_keys → created_before (fk_references fk) (fk_table fk) = true.
Proof.
  intros H. unfold foreign_keys in H.
  repeat (apply elem_of_cons in H as [->|H]; [by vm_compute|]).
  by apply elem_of_nil in H.
Qed.

Lemma created_before_lookup (a b : string) :
  created_before a b = true →
  ∃ i j, creation_order !! i = Some a ∧ creation_order !! j = Some b ∧ (i < j)%nat.
Proof.
  unfold created_before.
  destruct (list_find (eq a) creation_order) as [[i a']|] eqn:Ea; [|done].
  destruct (list_find (eq b) creation_order) as [[j b']|] eqn:Eb; [|done].
  intros H. apply bool_decide_eq_true in H.
  apply list_find_Some in Ea as (Ha & <- & _).
  apply list_find_Some in Eb as (Hb & <- & _).
  by exists i, j.
Qed.

(** The final set of doomed ids is a fixed point: the doomed ids of a
    table are the ids of its rows that are hit under the final set. *)
Lemma sweep_fixed (tn : string) :
  tn ∈ creation_order →
  sweep db target which creation_order ∅ !! tn
  = Some ((fun r => value_of r "id")
          <$> List.filter (hit target which (sweep db target which creation_order ∅) tn)
                (rows_of db tn)).
Proof.
  intros Htn. apply list_elem_of_lookup_1 in Htn as [j Hj].
  pose proof creation_order_NoDup as Hnd.
  pose proof (take_drop_middle _ _ _ Hj) as Hsplit.
  set (pre := take j creation_order) in *.
  set (post := drop (S j) creation_order) in *.
  assert (Hpost : tn ∉ post).
  { rewrite <- Hsplit in Hnd. apply NoDup_app in Hnd as (_ & _ & Hnd).
    by apply NoDup_cons in Hnd as [? _]. }
  assert (Hfinal : ∀ k, k ∈ pre →
            sweep db target which creation_order ∅ !! k
            = sweep db target which pre ∅ !! k).
  { intros k Hk. rewrite <- Hsplit at 1. rewrite sweep_app. cbn.
    assert (Hk' : k ∉ tn :: post).
    { rewrite <- Hsplit in Hnd. apply NoDup_app in Hnd as (_ & Hnd & _).
      by apply Hnd. }
    rewrite sweep_notin by (by apply not_elem_of_cons in Hk' as [_ ?]).
    rewrite lookup_insert_ne; [done|].
    by apply not_elem_of_cons in Hk' as [? _]. }
  rewrite <- Hsplit at 1. rewrite sweep_app. cbn.
  rewrite sweep_notin by done. rewrite lookup_insert_eq.
  f_equal. f_equal. apply filter_ext_in_iff. intros r _.
  apply hit_ext. intros fk Hfk. symmetry. apply Hfinal.
  apply elem_of_references_of in Hfk as [Hfk <-].
  apply foreign_keys_backwards, created_before_lookup in Hfk
    as (i & j' & Hi & Hj' & Hlt).
  assert (j' = j) as -> by (by eapply NoDup_lookup).
  apply list_elem_of_lookup_2 with i. unfold pre. by rewrite lookup_take_lt.
Qed.

Lemma foreign_key_tables (fk : foreign_key) :
  fk ∈ foreign_keys →
  fk_table fk ∈ creation_order ∧ fk_references fk ∈ creation_order.
Proof.
  intros H. apply foreign_keys_backwards, created_before_lookup in H
    as (i & j & Hi & Hj & _).
  split; by eapply list_elem_of_lookup_2.
Qed.

Lemma hit_doomed (tn : string) (r : row) :
  tn ∈ creation_order → r ∈ rows_of db tn →
  hit target which (sweep db target which creation_order ∅) tn r = true →
  value_of r "id" ∈ default [] (sweep db target which creation_order ∅ !! tn).
Proof.
  intros Htn Hr Hhit. rewrite sweep_fixed by done. cbn.
  apply list_elem_of_fmap. exists r. split; [done|].
  apply list_elem_of_In, filter_In. split; [by apply list_elem_of_In|done].
Qed.

Lemma rows_after_delete (db' : database) (tn : string) :
  db_delete db target which = Some db' →
  rows_of db' tn
  = List.filter
      (fun r => negb (hit target which (sweep db target which creation_order ∅) tn r))
      (rows_of db tn).
Proof.
  unfold db_delete. cbv zeta.
  generalize (sweep db target which creation_order ∅). intros D.
  destruct (blocked _ _ _ _); [done|]. intros [= <-].
  unfold rows_of. rewrite map_lookup_imap.
  destruct (db !! tn) as [rows|]; [exact (eq_refl (List.filter _ rows))|exact eq_refl].
Qed.

Lemma elem_of_rows_after_delete (db' : database) (tn : string) (r : row) :
  db_delete db target which = Some db' →
  r ∈ rows_of db' tn
  ↔ r ∈ rows_of db tn
    ∧ hit target which (sweep db target which creation_order ∅) tn r = false.
Proof.
  intros H. rewrite (rows_after_delete _ _ H).
  rewrite !list_elem_of_In, filter_In, negb_true_iff. done.
Qed.

Lemma not_blocked (db' : database) (fk : foreign_key) (r : row) :
  db_delete db target which = Some db' →
  fk ∈ foreign_keys → fk_on_delete fk = NO_ACTION →
  r ∈ rows_of db (fk_table fk) →
  hit target which (sweep db target which creation_order ∅) (fk_table fk) r = false →
  key_in (value_of r (fk_column fk))
    (default [] (sweep db target which creation_order ∅ !! fk_references fk))
  = false.
Proof.
  unfold db_delete. cbv zeta.
  destruct (blocked _ _ _ _) eqn:B; [done|]. intros _ Hfk Hna Hr Hhit.
  destruct (key_in _ _) eqn:K; [|done].
  enough (blocked db target which (sweep db target which creation_order ∅) = true)
    by congruence.
  unfold blocked. apply existsb_exists. exists fk.
  split; [by apply list_elem_of_In|]. rewrite Hna. cbn [is_cascade negb andb].
  apply existsb_exists. exists r. split; [by apply list_elem_of_In|].
  by rewrite Hhit, K.
Qed.

Lemma cascade_hits (fk : foreign_key) (r : row) :
  fk ∈ foreign_keys → fk_on_delete fk = CASCADE →
  key_in (value_of r (fk_column fk))
    (default [] (sweep db target which creation_order ∅ !! fk_references fk))
  = true →
  hit target which (sweep db target which creation_order ∅) (fk_table fk) r = true.
Proof.
  intros Hfk Hc K. unfold hit. apply orb_true_iff. right.
  apply existsb_exists. exists fk. split.
  - apply list_elem_of_In, elem_of_references_of. split; [exact Hfk|reflexivity].
  - by rewrite Hc, K.
Qed.

(** A surviving row never names a row that goes away. *)
Lemma survivor_parent (db' : database) (fk : foreign_key) (r p : row) :
  db_delete db target which = Some db' →
  fk ∈ foreign_keys →
  r ∈ rows_of db' (fk_table fk) → p ∈ rows_of db (fk_references fk) →
  same_key (value_of r (fk_column fk)) (value_of p "id") = true →
  p ∈ rows_of db' (fk_references fk).
Proof.
  intros Hdel Hfk Hr Hp Hk.
  apply (elem_of_rows_after_delete _ _ _ Hdel) in Hr as [Hr Hhit].
  apply (elem_of_rows_after_delete _ _ _ Hdel). split; [done|].
  destruct (hit _ _ _ (fk_references fk) p) eqn:Hp'; [|done].
  apply hit_doomed in Hp'; [|by apply foreign_key_tables|done].
  assert (K : key_in (value_of r (fk_column fk))
                (default [] (sweep db target which creation_order ∅
                             !! fk_references fk)) = true).
  { apply key_in_spec. pose proof (same_key_refl _ _ Hk).
    apply same_key_eq in Hk. by rewrite Hk in *. }
  destruct (fk_on_delete fk) eqn:A.
  - apply cascade_hits in K; [congruence|done..].
  - by rewrite (not_blocked _ _ _ Hdel Hfk A Hr Hhit) in K.
Qed.

(** Tables that no cascade from the target reaches lose no row. *)
Lemma hit_spared (S : list string) (D : gmap string (list sql_value))
    (tn : string) (r : row) :
  cascade_closed S = true → target ∉ S →
  (∀ k, k ∈ S → default [] (D !! k) = []) →
  tn ∈ S → hit target which D tn r = false.
Proof.
  intros Hc Ht HD Htn. unfold hit. apply orb_false_iff. split.
  - apply andb_false_iff. left. apply bool_decide_eq_false. by intros ->.
  - apply not_true_iff_false. intros H.
    apply existsb_exists in H as (fk & Hfk & H).
    apply andb_true_iff in H as [Hcas K].
    unfold cascade_closed in Hc. rewrite forallb_forall in Hc.
    specialize (Hc tn (proj1 (list_elem_of_In _ _) Htn)).
    rewrite forallb_forall in Hc. specialize (Hc fk Hfk).
    rewrite Hcas in Hc. cbn in Hc. apply bool_decide_eq_true in Hc.
    by rewrite (HD _ Hc) in K.
Qed.

Lemma sweep_spares (S order : list string) (D : gmap string (list sql_value)) :
  cascade_closed S = true → target ∉ S →
  (∀ k, k ∈ S → default [] (D !! k) = []) →
  ∀ k, k ∈ S → default [] (sweep db target which order D !! k) = [].
Proof.
  intros Hc Ht. revert D.
  induction order as [|tn order IH]; intros D HD; cbn; [done|].
  apply IH. intros k Hk. destruct (decide (k = tn)) as [->|Hne].
  - rewrite lookup_insert_eq. cbn.
    replace (List.filter _ _) with (@nil row); [done|].
    symmetry. induction (rows_of db tn) as [|r l IHl]; [done|]. cbn.
    by rewrite (hit_spared S D tn r).
  - rewrite lookup_insert_ne by done. by apply HD.
Qed.

End Sweep.

Lemma pairwise_filter {A : Type} (agree : A → A → bool) (f : A → bool)
    (l : list A) :
  (∀ i j x y, l !! i = Some x → l !! j = Some y → agree x y = true → i = j) →
  ∀ i j x y, List.filter f l !! i = Some x → List.filter f l !! j = Some y →
             agree x y = true → i = j.
Proof.
  induction l as [|a l IH]; intros H; cbn; [done|].
  assert (Hl : ∀ i j x y, l !! i = Some x → l !! j = Some y →
                          agree x y = true → i = j).
  { intros i j x y Hi Hj E.
    assert (Datatypes.S i = Datatypes.S j) by (by eapply H). lia. }
  assert (Hin : ∀ k y, List.filter f l !! k = Some y → ∃ k', l !! k' = Some y).
  { intros k y Hk. apply list_elem_of_lookup_1.
    apply list_elem_of_lookup_2 in Hk.
    apply list_elem_of_In, filter_In in Hk as [Hk _]. by apply list_elem_of_In. }
  destruct (f a); [|by apply IH].
  intros [|i] [|j] x y Hi Hj E; cbn in *.
  - done.
  - injection Hi as ->. apply Hin in Hj as [k' Hk'].
    by specialize (H 0%nat (Datatypes.S k') x y eq_refl Hk' E).
  - injection Hj as ->. apply Hin in Hi as [k' Hk'].
    by specialize (H (Datatypes.S k') 0%nat x y Hk' eq_refl E).
  - f_equal. by eapply (IH Hl).
Qed.

Lemma agree_on_sym (cols : list string) (r r' : row) :
  agree_on cols r r' = agree_on cols r' r.
Proof.
  unfold agree_on. induction cols as [|c cols IH]; [done|]. cbn.
  by rewrite IH, same_key_sym.
Qed.

(** X16: an accepted DELETE, with its cascades, keeps the database
    consistent: no row that stays is left naming a row that went away, and
    no two rows agree on a PRIMARY KEY or UNIQUE constraint. *)
Theorem delete_keeps_database_consistent (db db' : database) (target : string)
    (which : row → bool) :
  db_delete db target which = Some db' →
  (references_intact db → references_intact db')
  ∧ (keys_unique db → keys_unique db').
Proof.
  intros Hdel. split.
  - intros Hdb fk r Hfk Hr.
    pose proof Hr as Hr0.
    apply (elem_of_rows_after_delete _ _ _ _ _ _ Hdel) in Hr0 as [Hr0 _].
    destruct (Hdb fk r Hfk Hr0) as [Hn|(p & Hp & Hk)]; [by left|right].
    exists p. split; [|done]. by eapply survivor_parent.
  - intros Hdb tn cols i j r r' Hu.
    rewrite (rows_after_delete _ _ _ _ _ Hdel).
    apply pairwise_filter. intros ????. by apply Hdb.
Qed.

Lemma rows_after_insert (db db' : database) (t : table) (e : env) (vals : row) :
  db_insert db t e vals = Some db' →
  ∃ r, sql_insert t e vals = Some r
       ∧ unique_ok db (tbl_name t) r = true
       ∧ references_ok db (tbl_name t) r = true
       ∧ rows_of db' (tbl_name t) = rows_of db (tbl_name t) ++ [r]
       ∧ ∀ tn, tn ≠ tbl_name t → rows_of db' tn = rows_of db tn.
Proof.
  unfold db_insert. destruct (sql_insert t e vals) as [r|]; [|done].
  destruct (unique_ok _ _ _) eqn:U; [|done].
  destruct (references_ok _ _ _) eqn:R; [|done]. cbn [andb]. intros [= <-].
  exists r. split; [reflexivity|]. split; [exact U|].
  split; [exact R|]. split.
  - unfold rows_of at 1. rewrite lookup_insert_eq. reflexivity.
  - intros tn Hne. unfold rows_of. rewrite lookup_insert_ne by done. reflexivity.
Qed.

(** X17: an accepted INSERT keeps the database consistent.  If every
    reference of a stored row was NULL or named a stored row, this still
    holds with the new row; if no two rows of a table agreed on the columns
    of a PRIMARY KEY or UNIQUE constraint, none do afterwards. *)
Theorem insert_keeps_database_consistent (db db' : database) (t : table)
    (e : env) (vals : row) :
  db_insert db t e vals = Some db' →
  (references_intact db → references_intact db')
  ∧ (keys_unique db → keys_unique db').
Proof.
  intros Hins.
  apply rows_after_insert in Hins as (r & _ & U & R & Hnew & Hold).
  assert (Hsub : ∀ tn x, x ∈ rows_of db tn → x ∈ rows_of db' tn).
  { intros tn x Hx. destruct (decide (tn = tbl_name t)) as [->|Hne].
    - rewrite Hnew. apply elem_of_app. by left.
    - by rewrite Hold. }
  split.
  - intros Hdb fk x Hfk Hx.
    assert (Hcase : x ∈ rows_of db (fk_table fk)
                    ∨ (fk_table fk = tbl_name t ∧ x = r)).
    { destruct (decide (fk_table fk = tbl_name t)) as [E|Hne].
      - rewrite E, Hnew in Hx. apply elem_of_app in Hx as [Hx|Hx].
        + left. by rewrite E.
        + right. by apply list_elem_of_singleton in Hx.
      - left. by rewrite Hold in Hx. }
    destruct Hcase as [Hx0|[E ->]].
    + destruct (Hdb fk x Hfk Hx0) as [Hn|(p & Hp & Hk)]; [by left|right].
      exists p. split; [by apply Hsub|done].
    + unfold references_ok in R. rewrite forallb_forall in R.
      assert (Hin : In fk (references_of (tbl_name t)))
        by (by apply list_elem_of_In, elem_of_references_of).
      specialize (R fk Hin). apply orb_true_iff in R as [R|R].
      * left. by apply is_null_spec.
      * right. apply existsb_exists in R as (p & Hp & Hk).
        exists p. split; [|done]. by apply Hsub, list_elem_of_In.
  - intros Hdb tn cols i j x y Hu.
    destruct (decide (tn = tbl_name t)) as [->|Hne];
      [|rewrite Hold by done; by apply Hdb].
    rewrite Hnew. intros Hi Hj E.
    assert (Hfresh : ∀ k z, rows_of db (tbl_name t) !! k = Some z →
                            agree_on cols r z = false).
    { intros k z Hk. unfold unique_ok in U. rewrite forallb_forall in U.
      specialize (U _ (proj1 (list_elem_of_In _ _) Hu)). cbn in U.
      rewrite bool_decide_true in U by done. cbn in U.
      apply negb_true_iff in U. apply not_true_iff_false. intros Hz.
      apply not_true_iff_false in U. apply U. apply existsb_exists.
      exists z. split; [|done]. by eapply list_elem_of_In, list_elem_of_lookup_2. }
    apply lookup_app_Some in Hi as [Hi|[Hi1 Hi2]];
      apply lookup_app_Some in Hj as [Hj|[Hj1 Hj2]].
    + by eapply Hdb.
    + apply list_lookup_singleton_Some in Hj2 as [_ <-].
      rewrite agree_on_sym in E. by rewrite (Hfresh _ _ Hi) in E.
    + apply list_lookup_singleton_Some in Hi2 as [_ <-].
      by rewrite (Hfresh _ _ Hj) in E.
    + apply list_lookup_singleton_Some in Hi2 as [Hi2 _].
      apply list_lookup_singleton_Some in Hj2 as [Hj2 _]. lia.
Qed.

Lemma no_action_blocks_spared (db : database) (which : row → bool)
    (fk : foreign_key) (S : list string) (parent child : row) :
  fk ∈ foreign_keys → fk_on_delete fk = NO_ACTION →
  cascade_closed S = true → fk_table fk ∈ S → fk_references fk ∉ S →
  parent ∈ rows_of db (fk_references fk) → which parent = true →
  child ∈ rows_of db (fk_table fk) →
  same_key (value_of child (fk_column fk)) (value_of parent "id") = true →
  db_delete db (fk_references fk) which = None.
Proof.
  intros Hfk Hna Hc Ht Hr Hp Hw Hch Hk.
  destruct (db_delete db (fk_references fk) which) as [db'|] eqn:Hdel; [|done].
  exfalso.
  set (final := sweep db (fk_references fk) which creation_order ∅).
  assert (Hempty : ∀ k, k ∈ S → default [] (final !! k) = []).
  { by apply (sweep_spares db (fk_references fk) which S). }
  assert (Hchild : hit (fk_references fk) which final (fk_table fk) child = false)
    by (by apply (hit_spared (fk_references fk) which S)).
  assert (Hparent : hit (fk_references fk) which final (fk_references fk) parent
                    = true).
  { unfold hit. by rewrite bool_decide_true, Hw. }
  apply hit_doomed in Hparent; [|by apply foreign_key_tables|done].
  assert (K : key_in (value_of child (fk_column fk))
                (default [] (final !! fk_references fk)) = true).
  { apply key_in_spec. pose proof (same_key_refl _ _ Hk).
    apply same_key_eq in Hk. by rewrite Hk in *. }
  unfold final in *.
  by rewrite (not_blocked _ _ _ _ _ _ Hdel Hfk Hna Hch Hchild) in K.
Qed.

(** X18: the three references without ON DELETE clause
    ([api_keys.platform_id], [scheduled_posts.template_id] and
    [activity_logs.user_id]) stop a DELETE on the table they name: a
    platform with an API key, a template with a scheduled post and a user
    with an activity log cannot be deleted, whatever else the statement
    selects, since no cascade from the deleted table reaches the
    referencing row. *)
Theorem no_action_blocks_delete (db : database) (which : row → bool)
    (fk : foreign_key) (parent child : row) :
  fk ∈ foreign_keys → fk_on_delete fk = NO_ACTION →
  parent ∈ rows_of db (fk_references fk) → which parent = true →
  child ∈ rows_of db (fk_table fk) →
  same_key (value_of child (fk_column fk)) (value_of parent "id") = true →
  db_delete db (fk_references fk) which = None.
Proof.
  intros Hfk Hna.
  assert (HS : ∃ S, cascade_closed S = true ∧ fk_table fk ∈ S
                    ∧ fk_references fk ∉ S).
  { unfold foreign_keys in Hfk.
    repeat (apply elem_of_cons in Hfk as [->|Hfk];
            [first [discriminate Hna
                   | exists ["api_keys"; "tenants"; "users"];
                     split; [reflexivity|]; split; [by constructor|];
                     by apply (bool_decide_unpack _)
                   | exists ["scheduled_posts"; "tenants"; "users"];
                     split; [reflexivity|]; split; [by constructor|];
                     by apply (bool_decide_unpack _)
                   | exists ["activity_logs"; "tenants"];
                     split; [reflexivity|]; split; [by constructor|];
                     by apply (bool_decide_unpack _)]|]).
    by apply elem_of_nil in Hfk. }
  destruct HS as (S & Hc & Ht & Hr). intros. by eapply no_action_blocks_spared.
Qed.

Lemma no_action_blocks_delete_witness :
  db_delete Fixtures.sample_db "users" (Fixtures.has_id "u1") = None.
Proof.
  apply (no_action_blocks_delete Fixtures.sample_db (Fixtures.has_id "u1")
           (ForeignKey "activity_logs" "user_id" "users" NO_ACTION)
           Fixtures.user_ann Fixtures.log_ann).
  - unfold foreign_keys. rewrite !elem_of_cons. auto 30.
  - reflexivity.
  - apply list_elem_of_singleton.
    vm_cast_no_check (@eq_refl row Fixtures.user_ann).
  - vm_cast_no_check (@eq_refl bool true).
  - apply list_elem_of_singleton.
    vm_cast_no_check (@eq_refl row Fixtures.log_ann).
  - vm_cast_no_check (@eq_refl bool true).
Defined.

(** X19: an accepted [DELETE FROM tenants WHERE which] removes exactly
    the tenants that satisfy [which]; in each of the eight tables with a
    [tenant_id] no row is left whose [tenant_id] is the id of a removed
    tenant; and [platforms] keeps all its rows. *)
Theorem tenant_delete_cascades (db db' : database) (which : row → bool) :
  db_delete db "tenants" which = Some db' →
  (∀ t, t ∈ rows_of db' "tenants" ↔ t ∈ rows_of db "tenants" ∧ which t = false)
  ∧ (∀ fk r t, fk ∈ foreign_keys → fk_references fk = "tenants" →
       r ∈ rows_of db' (fk_table fk) →
       t ∈ rows_of db "tenants" → which t = true →
       same_key (value_of r (fk_column fk)) (value_of t "id") = false)
  ∧ rows_of db' "platforms" = rows_of db "platforms".
Proof.
  intros Hdel. split; [|split].
  - intros t. rewrite (elem_of_rows_after_delete _ _ _ _ _ _ Hdel).
    unfold hit. replace (references_of "tenants") with (@nil foreign_key)
      by reflexivity.
    cbn [existsb]. by rewrite bool_decide_true, orb_false_r.
  - intros fk r t Hfk Href Hr Ht Hw.
    destruct (same_key _ _) eqn:Hk; [exfalso|done].
    rewrite <- Href in Ht.
    pose proof (survivor_parent _ _ _ _ _ _ _ Hdel Hfk Hr Ht Hk) as Ht'.
    apply (elem_of_rows_after_delete _ _ _ _ _ _ Hdel) in Ht' as [_ Ht'].
    rewrite Href in Ht'. unfold hit in Ht'.
    by rewrite bool_decide_true, Hw in Ht'.
  - rewrite (rows_after_delete _ _ _ _ _ Hdel).
    assert (Hs : ∀ r, hit "tenants" which
                        (sweep db "tenants" which creation_order ∅) "platforms" r
                      = false).
    { intros r. apply (hit_spared "tenants" which ["platforms"]).
      - reflexivity.
      - by apply (bool_decide_unpack _).
      - apply sweep_spares.
        + reflexivity.
        + by apply (bool_decide_unpack _).
        + intros k _. by rewrite lookup_empty.
      - constructor. }
    induction (rows_of db "platforms") as [|r l IH]; [reflexivity|].
    cbn [List.filter]. rewrite Hs. cbn [negb]. by rewrite IH.
Qed.

Lemma tenant_delete_cascades_witness :
  (∀ t, t ∈ rows_of Fixtures.sample_db_without_acme "tenants"
        ↔ t ∈ rows_of Fixtures.sample_db "tenants" ∧ Fixtures.has_id "t1" t = false)
  ∧ (∀ fk r t, fk ∈ foreign_keys → fk_references fk = "tenants" →
       r ∈ rows_of Fixtures.sample_db_without_acme (fk_table fk) →
       t ∈ rows_of Fixtures.sample_db "tenants" → Fixtures.has_id "t1" t = true →
       same_key (value_of r (fk_column fk)) (value_of t "id") = false)
  ∧ rows_of Fixtures.sample_db_without_acme "platforms"
    = rows_of Fixtures.sample_db "platforms".
Proof.
  apply (tenant_delete_cascades Fixtures.sample_db Fixtures.sample_db_without_acme
           (Fixtures.has_id "t1")).
  vm_cast_no_check (@eq_refl _ (Some Fixtures.sample_db_without_acme)).
Defined.

Lemma delete_keeps_database_consistent_witness :
  (references_intact Fixtures.sample_db
   → references_intact Fixtures.sample_db_without_acme)
  ∧ (keys_unique Fixtures.sample_db → keys_unique Fixtures.sample_db_without_acme).
Proof.
  apply (delete_keeps_database_consistent Fixtures.sample_db
           Fixtures.sample_db_without_acme "tenants" (Fixtures.has_id "t1")).
  vm_cast_no_check (@eq_refl _ (Some Fixtures.sample_db_without_acme)).
Defined.

Lemma insert_keeps_database_consistent_witness :
  (references_intact Fixtures.sample_db → references_intact Fixtures.sample_db_with_bea)
  ∧ (keys_unique Fixtures.sample_db → keys_unique Fixtures.sample_db_with_bea).
Proof.
  apply (insert_keeps_database_consistent Fixtures.sample_db
           Fixtures.sample_db_with_bea users (Env 7 "u2") Fixtures.bea_values).
  vm_cast_no_check (@eq_refl _ (Some Fixtures.sample_db_with_bea)).
Defined.

Lemma unique_ok_social_accounts (db : database) (r : row) :
  unique_ok db "social_accounts" r
  = negb (existsb (agree_on ["id"] r) (rows_of db "social_accounts"))
    && (negb (existsb (agree_on ["tenant_id"; "platform_id"; "account_handle"] r)
                (rows_of db "social_accounts"))
        && true).
Proof. reflexivity. Qed.

(** X20: UNIQUE(tenant_id, platform_id, account_handle) does not stop a
    further account of the same tenant on the same platform when the new
    row has no handle ([account_handle] may be NULL, and a NULL agrees with
    nothing): with a fresh id and references that exist, the INSERT is
    accepted whatever rows are stored. *)
Theorem unique_admits_missing_handle (db : database) (e : env) (vals r : row) :
  sql_insert social_accounts e vals = Some r →
  value_of r "account_handle" = VNull →
  references_ok db "social_accounts" r = true →
  (∀ r', r' ∈ rows_of db "social_accounts" →
         same_key (value_of r "id") (value_of r' "id") = false) →
  db_insert db social_accounts e vals
  = Some (<["social_accounts" := rows_of db "social_accounts" ++ [r]]> db).
Proof.
  intros Hins Hnull Href Hid. unfold db_insert. rewrite Hins.
  change (tbl_name social_accounts) with "social_accounts".
  rewrite Href, unique_ok_social_accounts.
  replace (existsb (agree_on ["id"] r) _) with false; [|symmetry].
  - replace (existsb (agree_on _ r) _) with false; [done|symmetry].
    apply not_true_iff_false. intros H. apply existsb_exists in H as (r' & _ & H).
    unfold agree_on in H. cbn [forallb] in H. rewrite Hnull in H.
    cbn in H. by rewrite !andb_false_r in H.
  - apply not_true_iff_false. intros H. apply existsb_exists in H as (r' & Hr' & H).
    unfold agree_on in H. cbn [forallb] in H. rewrite andb_true_r in H.
    rewrite Hid in H; [done|by apply list_elem_of_In].
Qed.

Lemma unique_admits_missing_handle_witness :
  db_insert Fixtures.sample_db_nameless social_accounts (Env 9 "s3")
    Fixtures.nameless_values
  = Some (<["social_accounts" :=
              rows_of Fixtures.sample_db_nameless "social_accounts"
              ++ [new_row social_accounts (Env 9 "s3") Fixtures.nameless_values]]>
            Fixtures.sample_db_nameless).
Proof.
  apply (unique_admits_missing_handle Fixtures.sample_db_nameless (Env 9 "s3")
           Fixtures.nameless_values
           (new_row social_accounts (Env 9 "s3") Fixtures.nameless_values)).
  - vm_cast_no_check
      (@eq_refl _ (Some (new_row social_accounts (Env 9 "s3")
                           Fixtures.nameless_values))).
  - vm_cast_no_check (@eq_refl sql_value VNull).
  - vm_cast_no_check (@eq_refl bool true).
  - intros r' Hr'.
    assert (Hrows : rows_of Fixtures.sample_db_nameless "social_accounts"
                    = [Fixtures.account_ann;
                       new_row social_accounts (Env 8 "s2") Fixtures.nameless_values])
      by (vm_cast_no_check
            (@eq_refl _ [Fixtures.account_ann;
                         new_row social_accounts (Env 8 "s2")
                           Fixtures.nameless_values])).
    rewrite Hrows in Hr'.
    apply elem_of_cons in Hr' as [->|Hr'];
      [vm_cast_no_check (@eq_refl bool false)|].
    apply list_elem_of_singleton in Hr' as ->.
    vm_cast_no_check (@eq_refl bool false).
Defined.

(** X21: the script can be run from top to bottom: every REFERENCES
    clause names a table that an earlier CREATE TABLE of the script
    created; the referencing column is a column of its own table and the
    referenced table has the column [id]. *)
Theorem references_name_earlier_tables (fk : foreign_key) :
  fk ∈ foreign_keys →
  created_before (fk_references fk) (fk_table fk) = true
  ∧ ∃ t p, t ∈ all_tables ∧ p ∈ all_tables
           ∧ tbl_name t = fk_table fk ∧ tbl_name p = fk_references fk
           ∧ has_column t (fk_column fk) = true ∧ has_column p "id" = true.
Proof.
  intros H. split; [by apply foreign_keys_backwards|].
  assert (Hall : ∀ tn, tn ∈ creation_order →
            ∃ t, t ∈ all_tables ∧ tbl_name t = tn ∧ has_column t "id" = true).
  { intros tn Htn. apply list_elem_of_fmap in Htn as (t & -> & Ht).
    exists t. split; [done|]. split; [done|].
    unfold all_tables in Ht.
    repeat (apply elem_of_cons in Ht as [->|Ht]; [reflexivity|]).
    by apply elem_of_nil in Ht. }
  destruct (foreign_key_tables fk H) as [Ht Hp].
  apply Hall in Ht as (t & Ht & Et & _). apply Hall in Hp as (p & Hp & Ep & Hid).
  exists t, p. repeat split; try done.
  unfold foreign_keys in H. unfold all_tables in Ht.
  repeat (apply elem_of_cons in H as [->|H];
          [repeat (apply elem_of_cons in Ht as [->|Ht];
                   [first [discriminate Et|reflexivity]|]);
           by apply elem_of_nil in Ht|]).
  by apply elem_of_nil in H.
Qed.

Lemma references_name_earlier_tables_witness :
  created_before "users" "activity_logs" = true
  ∧ ∃ t p, t ∈ all_tables ∧ p ∈ all_tables
           ∧ tbl_name t = "activity_logs" ∧ tbl_name p = "users"
           ∧ has_column t "user_id" = true ∧ has_column p "id" = true.
Proof.
  apply (references_name_earlier_tables
           (ForeignKey "activity_logs" "user_id" "users" NO_ACTION)).
  unfold foreign_keys. rewrite !elem_of_cons. auto 30.
Defined.

End KeyFacts.

(* ===================================================================== *)
(** ** Row level security                                                  *)
(* ===================================================================== *)

Section PolicyFacts.
Import Schema Keys Policies.

Lemma tenants_seen_without_bypass (s : session) (db : database) :
  bypass_rls s = false → tenants_seen s db = [].
Proof.
  intros Hs. unfold tenants_seen.
  induction (rows_of db "tenants") as [|t l IH]; [done|]. cbn.
  unfold permitted_seeing at 1. rewrite Hs. cbn. exact IH.
Qed.

(** X22: what row level security comes to.  For a role it applies to,
    each of the nine tables it is enabled on is closed for every command
    and every row: seven have no policy at all, and the policies of [users]
    and [social_accounts] read [tenants] in a subquery, which has row level
    security and no policy itself, so the subquery sees no tenant.
    [platforms], where it is not enabled, stays open to everyone, and a
    role it does not apply to is not restricted anywhere. *)
Theorem row_level_security_outcome (s : session) (db : database) (tn : string) :
  (∀ c r, permitted s db c tn r
          = (bypass_rls s || negb (bool_decide (tn ∈ row_level_security))))
  ∧ visible s db tn
    = (if bypass_rls s || negb (bool_decide (tn ∈ row_level_security))
       then rows_of db tn else []).
Proof.
  assert (H : ∀ c r, permitted s db c tn r
                     = (bypass_rls s || negb (bool_decide (tn ∈ row_level_security)))).
  { intros c r. unfold permitted, permitted_seeing.
    destruct (bypass_rls s) eqn:Hs; [done|]. cbn [orb].
    destruct (negb _); [done|].
    rewrite tenants_seen_without_bypass by done.
    unfold policies, using_tenant. cbn [existsb]. by rewrite !andb_false_r. }
  split; [exact H|]. unfold visible.
  induction (rows_of db tn) as [|r l IH]; [by destruct (_ || _)|].
  cbn [List.filter]. rewrite H, IH. by destruct (_ || _).
Qed.



End PolicyFacts.
